(** * Ticket prioritisation and assignment engine

    A shallow embedding of [ticket_assignment_system.py] (class
    [AdvancedTicketAssignmentSystem]) and of [validate_data] from [utils.py],
    with the properties of the engine stated and proved over it.

    Modelling conventions.
    - Python [float] and [int] values that take part in scoring are exact
      rationals ([Q]); counters and levels that the program keeps as [int]
      are [Z].  Rounding of binary floating point is not modelled.
    - A Python [dict] is an insertion-ordered association list with unique
      keys ([Py.dict]); iteration order is list order.
    - An exception is a value of [Py.exn]; a method that mutates [self] is a
      function in the state-and-exception monad [Py.SE].
    - [datetime.now()] is an oracle [clock : nat -> Q]: the k-th reading of
      the wall clock during a run is [clock k].
    - Text is ASCII: [str.lower] maps the letters A-Z and nothing else.
    - A record of the dataset is a Rocq record with the fields the engine
      reads.  The module [Json] models the dataset one step earlier, as the
      parsed file, for [validate_data] and for what the engine does on a
      record that lacks a field.
    - [logger] calls have no effect on the state and are left out. *)

From Stdlib Require Import QArith Qminmax Qround Qabs Lqa ZArith String Ascii List Permutation Sorted.
From stdpp Require Import base list strings pretty gmap.
From Equations Require Import Equations.

Local Open Scope string_scope.
Local Open Scope list_scope.

(** ** Python primitives *)

Module Py.

(** The exceptions the engine can raise.  [OutOfFuel] is not a Python
    exception: it is what a bounded loop of the model returns when its bound
    is reached before the loop condition turns false. *)
Inductive exn : Type :=
| KeyError (key : string)
| ZeroDivisionError
| TypeError
| AttributeError
| IndexError
| NameError
| OutOfFuel.

Inductive result (A : Type) : Type :=
| Ok (a : A)
| Raise (e : exn).
Arguments Ok {A} a.
Arguments Raise {A} e.

Definition rbind {A B} (r : result A) (k : A -> result B) : result B :=
  match r with
  | Ok a => k a
  | Raise e => Raise e
  end.

(** State and exceptions: a method body run on a store [S]. *)
Definition SE (S A : Type) : Type := S -> result (A * S).

Definition ret {S A} (a : A) : SE S A := fun s => Ok (a, s).

Definition bind {S A B} (m : SE S A) (k : A -> SE S B) : SE S B :=
  fun s => match m s with
           | Ok (a, s') => k a s'
           | Raise e => Raise e
           end.

Definition raise {S A} (e : exn) : SE S A := fun _ => Raise e.
Definition get {S} : SE S S := fun s => Ok (s, s).
Definition put {S} (s : S) : SE S unit := fun _ => Ok (tt, s).
Definition lift {S A} (r : result A) : SE S A :=
  fun s => match r with Ok a => Ok (a, s) | Raise e => Raise e end.

(** *** Strings *)

Definition lower_ascii (c : ascii) : ascii :=
  let n := nat_of_ascii c in
  if (65 <=? n)%nat && (n <=? 90)%nat then ascii_of_nat (n + 32) else c.

(** [s.lower()] *)
Fixpoint lower (s : string) : string :=
  match s with
  | EmptyString => EmptyString
  | String c s' => String (lower_ascii c) (lower s')
  end.

(** [needle in hay] on two strings: substring test. *)
Fixpoint str_in (needle hay : string) : bool :=
  if String.prefix needle hay then true
  else match hay with
       | EmptyString => false
       | String _ hay' => str_in needle hay'
       end.

(** [sep.join(parts)] *)
Definition join (sep : string) (parts : list string) : string :=
  String.concat sep parts.

(** [sum(1 for keyword in keywords if keyword in text)] *)
Definition count_in (keywords : list string) (text : string) : Z :=
  Z.of_nat (length (List.filter (fun keyword => str_in keyword text) keywords)).


(** *** Numbers *)

Definition Qltb (x y : Q) : bool := negb (Qle_bool y x).
Definition Qgeb (x y : Q) : bool := Qle_bool y x.

(** [min(x, y)]: the first of the smallest arguments. *)
Definition min (x y : Q) : Q := if Qltb y x then y else x.

(** [x / y], true division. *)
Definition div (x y : Q) : result Q :=
  if Qeq_bool y 0 then Raise ZeroDivisionError else Ok (x / y)%Q.

(** The integer nearest to [q], ties to the even one. *)
Definition round_half_even (q : Q) : Z :=
  let f := Qfloor q in
  match (q - inject_Z f ?= 1 # 2)%Q with
  | Lt => f
  | Gt => f + 1
  | Eq => if Z.even f then f else f + 1
  end%Z.

(** [round(x, 2)] *)
Definition round2 (x : Q) : Q :=
  (inject_Z (round_half_even (x * 100)) / 100)%Q.

(** [s.rjust(width, "0")] *)
Definition zero_pad (width : nat) (s : string) : string :=
  String.concat "" (repeat "0" (width - String.length s)) ++ s.

(** [f"{x:.{decimals}f}"] for [decimals] at least one. *)
Definition format_fixed (decimals : nat) (x : Q) : string :=
  let scale := (10 ^ Z.of_nat decimals)%Z in
  let units := round_half_even (Qabs x * inject_Z scale) in
  (if Qltb x 0 then "-" else "") ++ pretty (units / scale)%Z ++ "."
  ++ zero_pad decimals (pretty (units mod scale)%Z).

(** [f"{x:.2f}"] *)
Definition format_2f (x : Q) : string := format_fixed 2 x.

(** *** Dictionaries with string keys, in insertion order *)

Definition dict (V : Type) : Type := list (string * V).

Fixpoint dict_get {V} (k : string) (d : dict V) : option V :=
  match d with
  | [] => None
  | (k', v) :: d' => if String.eqb k k' then Some v else dict_get k d'
  end.

(** [k in d] *)
Definition dict_mem {V} (k : string) (d : dict V) : bool :=
  match dict_get k d with Some _ => true | None => false end.

(** [d[k]] *)
Definition getitem {V} (d : dict V) (k : string) : result V :=
  match dict_get k d with
  | Some v => Ok v
  | None => Raise (KeyError k)
  end.

(** [d[k] = v]: an existing key keeps its position, a new key goes last. *)
Fixpoint dict_set {V} (k : string) (v : V) (d : dict V) : dict V :=
  match d with
  | [] => [(k, v)]
  | (k', v') :: d' =>
      if String.eqb k k' then (k, v) :: d' else (k', v') :: dict_set k v d'
  end.

Definition keys {V} (d : dict V) : list string := map fst d.
Definition values {V} (d : dict V) : list V := map snd d.

(** [{key(x): x for x in xs}] *)
Definition dict_of {V} (key : V -> string) (xs : list V) : dict V :=
  fold_left (fun d x => dict_set (key x) x d) xs [].

End Py.

Import Py.

Notation "'let*' x ':=' m 'in' k" := (bind m (fun x => k))
  (at level 10, x name, m at level 100, k at level 200).
Notation "'let*' ' p ':=' m 'in' k" := (bind m (fun x => match x with p => k end))
  (at level 10, p pattern, m at level 100, k at level 200).
Notation "m ';;' k" := (bind m (fun _ => k))
  (at level 100, k at level 200, right associativity).

(** ** Data model *)

Inductive Urgency : Type := CRITICAL | HIGH | MEDIUM | LOW.

Definition urgency_name (u : Urgency) : string :=
  match u with
  | CRITICAL => "CRITICAL"
  | HIGH => "HIGH"
  | MEDIUM => "MEDIUM"
  | LOW => "LOW"
  end.

Definition urgency_eqb (u v : Urgency) : bool :=
  String.eqb (urgency_name u) (urgency_name v).

(** [@dataclass TicketPriority]; the field [ticket_id] is [tp_ticket_id]. *)
Record TicketPriority : Type := mkTicketPriority {
  tp_ticket_id : string;
  priority_score : Q;
  urgency_level : Urgency;
  business_impact : Q;
  affected_users : Z;
  security_risk : Q
}.

(** [TicketPriority.__lt__]: a record is "smaller" when its score is larger. *)
Definition tp_lt (self other : TicketPriority) : bool :=
  Qltb (priority_score other) (priority_score self).

(** A ticket of the dataset. *)
Record Ticket : Type := mkTicket {
  ticket_id : string;
  title : string;
  description : string;
  creation_timestamp : Q
}.

(** An agent of the dataset, with the two fields [load_data] adds. *)
Record Agent : Type := mkAgent {
  agent_id : string;
  name : string;
  skills : dict Z;
  current_load : Z;
  availability_status : string;
  experience_level : Z;
  assigned_tickets : list string;
  current_priority_load : Q
}.

(** The options of [self.config] that the engine reads. *)
Record Config : Type := mkConfig {
  max_load_per_agent : Z;
  skill_match_weight : Q;
  experience_weight : Q;
  workload_weight : Q;
  priority_weight : Q;
  critical_keywords : list string;
  high_priority_keywords : list string
}.

(** [default_config] of [_load_config]. *)
Definition default_config : Config := {|
  max_load_per_agent := 10;
  skill_match_weight := 0.4;
  experience_weight := 0.2;
  workload_weight := 0.2;
  priority_weight := 0.2;
  critical_keywords :=
    ["critical"; "urgent"; "down"; "outage"; "security";
     "breach"; "attack"; "production"; "business-critical"];
  high_priority_keywords :=
    ["failing"; "error"; "unable"; "blocked"; "stopped"]
|}.

(** ** Priority calculator *)

Section PriorityCalculator.
Local Open Scope Q_scope.

Variable config : Config.

(** [f"{title} {description}"] of the two lower-cased fields. *)
Definition combined_text (ticket : Ticket) : string :=
  (lower (title ticket) ++ " " ++ lower (description ticket))%string.

Definition security_keywords : list string :=
  ["breach"; "attack"; "phishing"; "malware"; "virus";
   "unauthorized"; "suspicious"; "security"].

Definition business_impact_of (text : string) : Q :=
  if str_in "production" text || str_in "business-critical" text then 1.0
  else if str_in "public" text || str_in "customer" text then 0.8
  else if str_in "internal" text || str_in "employee" text then 0.5
  else 0.3.

Definition affected_users_of (text : string) : Z :=
  if str_in "all" text || str_in "everyone" text || str_in "company" text then 100
  else if str_in "department" text || str_in "team" text || str_in "multiple" text then 20
  else if str_in "group" text then 10
  else 1.

Definition security_risk_of (text : string) : Q :=
  let security_count := count_in security_keywords text in
  Py.min (inject_Z security_count / inject_Z (Z.of_nat (length security_keywords))) 1.0.

(** Lines 213-215, with [current_time] the clock reading of line 213. *)
Definition time_urgency_of (current_time : Q) (ticket : Ticket) : Q :=
  let age_hours := (current_time - creation_timestamp ticket) / 3600 in
  Py.min (age_hours / 24) 1.0.

Definition urgency_of_score (priority_score : Q) : Urgency :=
  if Qgeb priority_score 20 then CRITICAL
  else if Qgeb priority_score 15 then HIGH
  else if Qgeb priority_score 10 then MEDIUM
  else LOW.

Definition calculate_ticket_priority (current_time : Q) (ticket : Ticket)
  : TicketPriority :=
  let text := combined_text ticket in
  let critical_count := count_in (critical_keywords config) text in
  let high_priority_count := count_in (high_priority_keywords config) text in
  let business_impact := business_impact_of text in
  let affected_users := affected_users_of text in
  let security_risk := security_risk_of text in
  let time_urgency := time_urgency_of current_time ticket in
  let priority_score :=
    inject_Z critical_count * 10 +
    inject_Z high_priority_count * 5 +
    business_impact * 8 +
    (inject_Z affected_users / 10) +
    security_risk * 9 +
    time_urgency * 3 in
  {| tp_ticket_id := ticket_id ticket;
     priority_score := priority_score;
     urgency_level := urgency_of_score priority_score;
     business_impact := business_impact;
     affected_users := affected_users;
     security_risk := security_risk |}.

End PriorityCalculator.

(** ** The system object *)

(** The keys an assignment record has only when an agent was chosen. *)
Record MatchDetails : Type := mkMatchDetails {
  d_business_impact : Q;
  d_affected_users : Z;
  d_security_risk : Q;
  agent_match_score : Q;
  required_skills_top : list string;
  agent_skills_matched : list string
}.

(** One entry of [self.assignments]. *)
Record Assignment : Type := mkAssignment {
  a_ticket_id : string;
  a_title : string;
  assigned_agent_id : option string;
  assigned_agent_name : string;
  priority : Urgency;
  a_priority_score : Q;
  match_details : option MatchDetails;
  rationale : string;
  timestamp : Q
}.

(** An entry of [self.agent_performance_history]. *)
Record History : Type := mkHistory {
  resolved : Z;
  total : Z;
  avg_resolution_time : Q
}.

(** The attributes of [self].  The last two fields are ghost state: the
    number of wall-clock readings taken so far, and the number of times the
    keyword loop of [extract_required_skills] has run. *)
Record System : Type := mkSystem {
  agents : dict Agent;
  tickets : dict Ticket;
  assignments : list Assignment;
  config : Config;
  skill_requirements_cache : dict (dict Q);
  agent_performance_history : dict History;
  clock_reads : nat;
  keyword_scans : nat
}.

(** [__init__] *)
Definition init (cfg : Config) : System := {|
  agents := [];
  tickets := [];
  assignments := [];
  config := cfg;
  skill_requirements_cache := [];
  agent_performance_history := [];
  clock_reads := 0;
  keyword_scans := 0
|}.

Definition set_agents (v : dict Agent) (self : System) : System :=
  mkSystem v (tickets self) (assignments self) (config self)
    (skill_requirements_cache self) (agent_performance_history self)
    (clock_reads self) (keyword_scans self).

Definition set_tickets (v : dict Ticket) (self : System) : System :=
  mkSystem (agents self) v (assignments self) (config self)
    (skill_requirements_cache self) (agent_performance_history self)
    (clock_reads self) (keyword_scans self).

Definition set_assignments (v : list Assignment) (self : System) : System :=
  mkSystem (agents self) (tickets self) v (config self)
    (skill_requirements_cache self) (agent_performance_history self)
    (clock_reads self) (keyword_scans self).

Definition set_cache (v : dict (dict Q)) (self : System) : System :=
  mkSystem (agents self) (tickets self) (assignments self) (config self)
    v (agent_performance_history self)
    (clock_reads self) (keyword_scans self).

Definition note_scan (self : System) : System :=
  mkSystem (agents self) (tickets self) (assignments self) (config self)
    (skill_requirements_cache self) (agent_performance_history self)
    (clock_reads self) (S (keyword_scans self)).

Definition tick (self : System) : System :=
  mkSystem (agents self) (tickets self) (assignments self) (config self)
    (skill_requirements_cache self) (agent_performance_history self)
    (S (clock_reads self)) (keyword_scans self).

(** ** Data loading *)

(** The two assignments of the loop at lines 98-100. *)
Definition reset_agent (agent : Agent) : Agent :=
  mkAgent (agent_id agent) (name agent) (skills agent) (current_load agent)
    (availability_status agent) (experience_level agent) [] 0.

(** [load_data], after [json.load]: [data_agents] and [data_tickets] are the
    two lists of the dataset. *)
Definition load_data (data_agents : list Agent) (data_tickets : list Ticket)
    (self : System) : System :=
  let self := set_agents (dict_of agent_id data_agents) self in
  let self := set_tickets (dict_of ticket_id data_tickets) self in
  set_agents (map (fun '(agent_id, agent) => (agent_id, reset_agent agent))
                  (agents self)) self.

(** ** Skill extractor *)

Definition skill_keywords : dict (list string) := [
    ("Networking", ["network"; "vpn"; "connection"; "connectivity"; "lan"; "wan"]);
    ("VPN_Troubleshooting", ["vpn"; "tunnel"; "remote"; "connection dropping"]);
    ("Linux_Administration", ["linux"; "ubuntu"; "debian"; "centos"; "bash"; "shell"]);
    ("Cloud_AWS", ["aws"; "amazon"; "ec2"; "s3"; "lambda"]);
    ("Cloud_Azure", ["azure"; "microsoft cloud"; "app service"]);
    ("Hardware_Diagnostics", ["hardware"; "laptop"; "desktop"; "pc"; "computer"; "fan"; "battery"]);
    ("Windows_Server_2022", ["windows server"; "server 2022"; "windows 2022"]);
    ("Active_Directory", ["active directory"; "ad"; "domain"; "ldap"; "group policy"]);
    ("Microsoft_365", ["microsoft 365"; "m365"; "office 365"; "outlook"; "teams"; "sharepoint"]);
    ("Network_Security", ["firewall"; "security"; "breach"; "attack"; "vulnerability"]);
    ("Database_SQL", ["database"; "sql"; "query"; "mysql"; "postgresql"; "mssql"]);
    ("SharePoint_Online", ["sharepoint"; "document library"; "site collection"]);
    ("PowerShell_Scripting", ["powershell"; "ps1"; "script"]);
    ("Endpoint_Security", ["endpoint"; "antivirus"; "malware"; "edr"]);
    ("DevOps_CI_CD", ["devops"; "ci/cd"; "jenkins"; "pipeline"; "deployment"]);
    ("Kubernetes_Docker", ["kubernetes"; "k8s"; "docker"; "container"; "pod"]);
    ("Voice_VoIP", ["voip"; "phone"; "voice"; "telephony"; "sip"]);
    ("Printer_Troubleshooting", ["printer"; "print"; "printing"]);
    ("Mac_OS", ["mac"; "macos"; "osx"; "apple"; "macbook"]);
    ("SaaS_Integrations", ["saas"; "integration"; "api"; "webhook"; "sso"; "saml"]);
    ("Phishing_Analysis", ["phishing"; "spam"; "suspicious email"; "scam"]);
    ("SSL_Certificates", ["ssl"; "tls"; "certificate"; "https"; "encryption"]);
    ("DNS_Configuration", ["dns"; "domain"; "nameserver"; "resolution"]);
    ("Endpoint_Management", ["endpoint"; "mdm"; "intune"; "device management"]);
    ("Web_Server_Apache_Nginx", ["apache"; "nginx"; "web server"; "http"]);
    ("Firewall_Configuration", ["firewall"; "iptables"; "pf"; "acl"; "rules"]);
    ("Identity_Management", ["identity"; "iam"; "okta"; "auth0"; "authentication"]);
    ("Laptop_Repair", ["laptop"; "notebook"; "screen"; "keyboard"; "touchpad"]);
    ("Network_Cabling", ["cable"; "ethernet"; "cat5"; "cat6"; "rj45"]);
    ("Switch_Configuration", ["switch"; "vlan"; "trunk"; "spanning tree"]);
    ("Routing_Protocols", ["routing"; "ospf"; "bgp"; "eigrp"; "route"]);
    ("Cisco_IOS", ["cisco"; "ios"; "ccna"; "router"; "switch"]);
    ("Antivirus_Malware", ["antivirus"; "malware"; "virus"; "trojan"; "ransomware"]);
    ("Security_Audits", ["audit"; "compliance"; "assessment"; "vulnerability scan"]);
    ("SIEM_Logging", ["siem"; "log"; "splunk"; "elastic"; "monitoring"]);
    ("ETL_Processes", ["etl"; "extract"; "transform"; "load"; "data pipeline"]);
    ("Data_Warehousing", ["warehouse"; "data lake"; "bigquery"; "redshift"]);
    ("PowerBI_Tableau", ["powerbi"; "tableau"; "dashboard"; "visualization"]);
    ("API_Troubleshooting", ["api"; "rest"; "graphql"; "endpoint"; "integration"]);
    ("Software_Licensing", ["license"; "activation"; "subscription"; "seat"]);
    ("Virtualization_VMware", ["vmware"; "virtual"; "vm"; "esxi"; "vcenter"]);
    ("Python_Scripting", ["python"; "py"; "script"; "automation"])
  ].

Section SkillExtractor.
Local Open Scope Q_scope.

(** The loop at lines 165-168 over the entries of a lexicon, threading the
    dictionary [required_skills]. *)
Fixpoint scan_keywords (lexicon : dict (list string)) (text : string)
    (required_skills : dict Q) : result (dict Q) :=
  match lexicon with
  | [] => Ok required_skills
  | (skill, keywords) :: lexicon' =>
      let score := count_in keywords text in
      if (0 <? score)%Z then
        rbind (Py.div (inject_Z score) (inject_Z (Z.of_nat (length keywords))))
          (fun ratio =>
             scan_keywords lexicon' text
               (dict_set skill (Py.min ratio 1.0) required_skills))
      else scan_keywords lexicon' text required_skills
  end.

Definition extract_required_skills (ticket : Ticket) : SE System (dict Q) :=
  let* self := get in
  match dict_get (ticket_id ticket) (skill_requirements_cache self) with
  | Some cached => ret cached
  | None =>
      let* required_skills :=
        lift (scan_keywords skill_keywords (combined_text ticket) []) in
      put (set_cache (dict_set (ticket_id ticket) required_skills
                        (skill_requirements_cache self)) (note_scan self)) ;;
      ret required_skills
  end.

End SkillExtractor.

(** ** Agent scorer *)

Section AgentScorer.
Local Open Scope Q_scope.

(** The loop at lines 253-256: the sum of level times importance over the
    required skills the agent has. *)
Definition skill_match_sum (agent : Agent) (required_skills : dict Q) : Q :=
  fold_left
    (fun skill_match_score '(skill, importance) =>
       match dict_get skill (skills agent) with
       | Some level => skill_match_score + inject_Z level * importance
       | None => skill_match_score
       end)
    required_skills 0.

(** Lines 251-261. *)
Definition skill_match_score_of (agent : Agent) (required_skills : dict Q)
  : result Q :=
  let skill_match_score := skill_match_sum agent required_skills in
  match required_skills with
  | _ :: _ =>
      Py.div skill_match_score (inject_Z (Z.of_nat (length required_skills)))
  | [] => Ok 5
  end.

Definition experience_score_of (agent : Agent) : Q :=
  Py.min (inject_Z (experience_level agent) / 10) 1.0 * 10.

Definition workload_score_of (max_load : Z) (agent : Agent) : result Q :=
  rbind (Py.div (inject_Z (current_load agent)) (inject_Z max_load))
    (fun ratio => Ok ((1 - ratio) * 10)).

Definition priority_capability_of (agent : Agent)
    (ticket_priority : TicketPriority) : Q :=
  if urgency_eqb (urgency_level ticket_priority) CRITICAL
     && (8 <=? experience_level agent)%Z then 10
  else if urgency_eqb (urgency_level ticket_priority) HIGH
          && (6 <=? experience_level agent)%Z then 8
  else if urgency_eqb (urgency_level ticket_priority) MEDIUM
          && (4 <=? experience_level agent)%Z then 6
  else 5.

Definition performance_score_of (history_table : dict History) (agent : Agent)
  : result Q :=
  match dict_get (agent_id agent) history_table with
  | Some history =>
      if (0 <? total history)%Z then
        rbind (Py.div (inject_Z (resolved history)) (inject_Z (total history)))
          (fun resolution_rate => Ok (resolution_rate * 10))
      else Ok 5
  | None => Ok 5
  end.

(** Lines 251-291: [final_score] before the penalties. *)
Definition weighted_sum (cfg : Config) (history_table : dict History)
    (agent : Agent) (required_skills : dict Q)
    (ticket_priority : TicketPriority) : result Q :=
  rbind (skill_match_score_of agent required_skills) (fun skill_match_score =>
  let experience_score := experience_score_of agent in
  rbind (workload_score_of (max_load_per_agent cfg) agent) (fun workload_score =>
  let priority_capability := priority_capability_of agent ticket_priority in
  rbind (performance_score_of history_table agent) (fun performance_score =>
  Ok (skill_match_score * skill_match_weight cfg +
      experience_score * experience_weight cfg +
      workload_score * workload_weight cfg +
      priority_capability * priority_weight cfg +
      performance_score * 0.1)))).

(** Lines 293-297. *)
Definition apply_penalties (cfg : Config) (agent : Agent) (final_score : Q) : Q :=
  let final_score :=
    if negb (String.eqb (availability_status agent) "Available")
    then final_score * 0.1 else final_score in
  let final_score :=
    if (max_load_per_agent cfg <=? current_load agent)%Z
    then final_score * 0.01 else final_score in
  final_score.

Definition calculate_agent_score (agent : Agent) (ticket : Ticket)
    (ticket_priority : TicketPriority) : SE System Q :=
  let* required_skills := extract_required_skills ticket in
  let* self := get in
  let* final_score :=
    lift (weighted_sum (config self) (agent_performance_history self)
            agent required_skills ticket_priority) in
  ret (apply_penalties (config self) agent final_score).

End AgentScorer.

(** ** The priority queue

    [heapq.heappush] and [heapq.heappop] as in CPython's [Lib/heapq.py],
    over a list used as an array and the element's [__lt__]. *)

Section Heapq.
Context {A : Type} (lt : A -> A -> bool).

(** [heap[i]] *)
Definition item (heap : list A) (i : nat) : result A :=
  match heap !! i with
  | Some x => Ok x
  | None => Raise IndexError
  end.

(** [heap[i] = x] *)
Definition setitem (heap : list A) (i : nat) (x : A) : result (list A) :=
  if decide (i < length heap) then Ok (<[i:=x]> heap) else Raise IndexError.

(** [(pos - 1) >> 1] *)
Definition parent_of (pos : nat) : nat := Nat.shiftr (pos - 1) 1.

(** The [while pos > startpos] loop of [_siftdown]: returns the array and
    the position where [newitem] belongs. *)
Equations siftdown_loop (heap : list A) (startpos pos : nat) (newitem : A)
  : result (list A * nat) by wf pos Nat.lt :=
  siftdown_loop heap startpos pos newitem with decide (startpos < pos) := {
    | right _ => Ok (heap, pos)
    | left _ with item heap (parent_of pos) := {
        | Raise e => Raise e
        | Ok parent with lt newitem parent := {
            | false => Ok (heap, pos)
            | true with setitem heap pos parent := {
                | Raise e => Raise e
                | Ok heap' =>
                    siftdown_loop heap' startpos (parent_of pos) newitem } } } }.
Next Obligation.
  intros. unfold parent_of.
  change (Nat.shiftr (pos - 1) 1) with (Nat.div2 (pos - 1)).
  pose proof (Nat.div2_decr (pos - 1) (pos - 1)). lia.
Qed.

(** [_siftdown(heap, startpos, pos)] *)
Definition siftdown (heap : list A) (startpos pos : nat) : result (list A) :=
  rbind (item heap pos) (fun newitem =>
  rbind (siftdown_loop heap startpos pos newitem) (fun '(heap, pos) =>
  setitem heap pos newitem)).

(** The test [rightpos < endpos and not heap[childpos] < heap[rightpos]]
    of [_siftup]. *)
Definition right_is_smaller (heap : list A) (endpos childpos : nat)
  : result bool :=
  let rightpos := childpos + 1 in
  if decide (rightpos < endpos) then
    rbind (item heap childpos) (fun left_child =>
    rbind (item heap rightpos) (fun right_child =>
    Ok (negb (lt left_child right_child))))
  else Ok false.

Definition pick_child (childpos : nat) (use_right : bool) : nat :=
  if use_right then childpos + 1 else childpos.

(** The [while childpos < endpos] loop of [_siftup]: the smaller child
    moves up until a leaf is reached; returns the array and the leaf. *)
Equations siftup_loop (heap : list A) (endpos pos : nat)
  : result (list A * nat) by wf (endpos - pos) Nat.lt :=
  siftup_loop heap endpos pos with decide (2 * pos + 1 < endpos) := {
    | right _ => Ok (heap, pos)
    | left _ with right_is_smaller heap endpos (2 * pos + 1) := {
        | Raise e => Raise e
        | Ok use_right with item heap (pick_child (2 * pos + 1) use_right) := {
            | Raise e => Raise e
            | Ok child with setitem heap pos child := {
                | Raise e => Raise e
                | Ok heap' =>
                    siftup_loop heap' endpos (pick_child (2 * pos + 1) use_right) } } } }.
Next Obligation. intros. unfold pick_child. destruct use_right; lia. Qed.

(** [_siftup(heap, pos)] *)
Definition siftup (heap : list A) (pos : nat) : result (list A) :=
  let endpos := length heap in
  let startpos := pos in
  rbind (item heap pos) (fun newitem =>
  rbind (siftup_loop heap endpos pos) (fun '(heap, pos) =>
  rbind (setitem heap pos newitem) (fun heap =>
  siftdown heap startpos pos))).

(** [heappush(heap, item)] *)
Definition heappush (heap : list A) (x : A) : result (list A) :=
  let heap := heap ++ [x] in
  siftdown heap 0 (length heap - 1).

(** [heap.pop()] *)
Definition list_pop (heap : list A) : result (A * list A) :=
  match last heap with
  | Some lastelt => Ok (lastelt, removelast heap)
  | None => Raise IndexError
  end.

(** [heappop(heap)] *)
Definition heappop (heap : list A) : result (A * list A) :=
  rbind (list_pop heap) (fun '(lastelt, heap) =>
  match heap with
  | _ :: _ =>
      rbind (item heap 0) (fun returnitem =>
      rbind (setitem heap 0 lastelt) (fun heap =>
      rbind (siftup heap 0) (fun heap =>
      Ok (returnitem, heap))))
  | [] => Ok (lastelt, heap)
  end).

End Heapq.


(** ** Assignment loop *)

(** The local variables of the scan over the agents (lines 314-324);
    [loop_agent_id] is the loop variable [agent_id], which the rationale of
    line 355 reads after the loop. *)
Record Scan : Type := mkScan {
  best_agent_id : option string;
  best_score : Q;
  agent_scores : dict Q;
  loop_agent_id : option string
}.

Definition scan_start : Scan := mkScan None (-1) [] None.

(** Truth value of [best_agent_id]: [None] and the empty string are false. *)
Definition truthy (value : option string) : bool :=
  match value with
  | Some s => negb (String.eqb s "")
  | None => false
  end.

Definition experience_label (agent : Agent) : string :=
  if (10 <=? experience_level agent)%Z then "senior expert level"
  else if (7 <=? experience_level agent)%Z then "experienced professional"
  else if (4 <=? experience_level agent)%Z then "competent handler"
  else "developing expertise".

Definition workload_label (agent : Agent) : list string :=
  if (current_load agent <=? 2)%Z then ["optimal workload capacity"]
  else if (current_load agent <=? 4)%Z then ["balanced workload"]
  else [].

Definition capability_note (ticket_priority : TicketPriority) : list string :=
  match urgency_level ticket_priority with
  | CRITICAL | HIGH =>
      [("capable of handling " ++ urgency_name (urgency_level ticket_priority)
        ++ " priority")%string]
  | _ => []
  end.

Definition unassigned_rationale : string :=
  "No suitable agent available - requires escalation or additional resources".

(** Lines 377-379 on the chosen agent. *)
Definition take_ticket (ticket : Ticket) (ticket_priority : TicketPriority)
    (agent : Agent) : Agent :=
  mkAgent (agent_id agent) (name agent) (skills agent)
    (current_load agent + 1)
    (availability_status agent) (experience_level agent)
    (assigned_tickets agent ++ [ticket_id ticket])
    (current_priority_load agent + priority_score ticket_priority)%Q.

Section AssignmentLoop.
Local Open Scope Q_scope.

(** The wall clock: [clock k] is the k-th reading taken during the run. *)
Variable clock : nat -> Q.

(** [datetime.now()] *)
Definition now : SE System Q :=
  fun self => Ok (clock (clock_reads self), tick self).

(** The body of [for agent_id, agent in self.agents.items()]. *)
Definition scan_step (ticket : Ticket) (ticket_priority : TicketPriority)
    (scan : Scan) (entry : string * Agent) : SE System Scan :=
  let '(key, agent) := entry in
  let* score := calculate_agent_score agent ticket ticket_priority in
  let agent_scores := dict_set key score (agent_scores scan) in
  if Qltb (best_score scan) score
  then ret (mkScan (Some key) score agent_scores (Some key))
  else ret (mkScan (best_agent_id scan) (best_score scan) agent_scores (Some key)).

Fixpoint scan_agents (entries : list (string * Agent)) (ticket : Ticket)
    (ticket_priority : TicketPriority) (scan : Scan) : SE System Scan :=
  match entries with
  | [] => ret scan
  | entry :: entries' =>
      let* scan := scan_step ticket ticket_priority scan entry in
      scan_agents entries' ticket ticket_priority scan
  end.

(** Lines 327-382: the branch taken when [best_agent_id] is true. *)
Definition commit_assignment (ticket : Ticket) (ticket_priority : TicketPriority)
    (scan : Scan) (best : string) : SE System unit :=
  let* self := get in
  let* agent := lift (getitem (agents self) best) in
  let* required_skills := extract_required_skills ticket in
  let matched_skills :=
    List.filter (fun skill => dict_mem skill (skills agent)) (keys required_skills) in
  let skill_part :=
    match matched_skills with
    | [] => []
    | _ :: _ =>
        [("Strong skills in " ++
          join ", " (map (fun skill =>
                            skill ++ " (" ++
                            pretty (default 0%Z (dict_get skill (skills agent)))
                            ++ ")")
                         (take 3 matched_skills)))%string]
    end in
  let rationale_parts :=
    skill_part ++ [experience_label agent] ++ workload_label agent
    ++ capability_note ticket_priority in
  let* agent_id_var :=
    lift (match loop_agent_id scan with
          | Some key => Ok key
          | None => Raise NameError
          end) in
  let rationale :=
    ("Assigned to " ++ name agent ++ " (" ++ agent_id_var ++ ") - "
     ++ join ", " rationale_parts ++ ". Match score: "
     ++ format_2f (best_score scan) ++ ", Priority: "
     ++ urgency_name (urgency_level ticket_priority))%string in
  let* stamp := now in
  let assignment := {|
    a_ticket_id := ticket_id ticket;
    a_title := title ticket;
    assigned_agent_id := Some best;
    assigned_agent_name := name agent;
    priority := urgency_level ticket_priority;
    a_priority_score := round2 (priority_score ticket_priority);
    match_details := Some {|
      d_business_impact := round2 (business_impact ticket_priority);
      d_affected_users := affected_users ticket_priority;
      d_security_risk := round2 (security_risk ticket_priority);
      agent_match_score := round2 (best_score scan);
      required_skills_top := take 5 (keys required_skills);
      agent_skills_matched := take 5 matched_skills |};
    rationale := rationale;
    timestamp := stamp |} in
  let* self := get in
  put (set_assignments (assignments self ++ [assignment]) self) ;;
  let* self := get in
  put (set_agents (dict_set best (take_ticket ticket ticket_priority agent)
                     (agents self)) self).

(** Lines 384-395: the [else] branch. *)
Definition record_unassigned (ticket : Ticket) (ticket_priority : TicketPriority)
    : SE System unit :=
  let* stamp := now in
  let* self := get in
  put (set_assignments
         (assignments self ++
          [{| a_ticket_id := ticket_id ticket;
              a_title := title ticket;
              assigned_agent_id := None;
              assigned_agent_name := "UNASSIGNED";
              priority := urgency_level ticket_priority;
              a_priority_score := round2 (priority_score ticket_priority);
              match_details := None;
              rationale := unassigned_rationale;
              timestamp := stamp |}]) self).

(** The body of [while ticket_priorities], after the [heappop]. *)
Definition assign_one (ticket_priority : TicketPriority) : SE System unit :=
  let* self := get in
  let* ticket := lift (getitem (tickets self) (tp_ticket_id ticket_priority)) in
  let* scan := scan_agents (agents self) ticket ticket_priority scan_start in
  match best_agent_id scan with
  | Some best =>
      if truthy (best_agent_id scan)
      then commit_assignment ticket ticket_priority scan best
      else record_unassigned ticket ticket_priority
  | None => record_unassigned ticket ticket_priority
  end.

(** Lines 305-308: one priority per ticket, pushed on the queue. *)
Fixpoint enqueue (entries : list (string * Ticket))
    (ticket_priorities : list TicketPriority) : SE System (list TicketPriority) :=
  match entries with
  | [] => ret ticket_priorities
  | (_, ticket) :: entries' =>
      let* self := get in
      let* current_time := now in
      let priority := calculate_ticket_priority (config self) current_time ticket in
      let* ticket_priorities := lift (heappush tp_lt ticket_priorities priority) in
      enqueue entries' ticket_priorities
  end.

(** Lines 310-395: [while ticket_priorities], at most [fuel] rounds. *)
Fixpoint drain (fuel : nat) (ticket_priorities : list TicketPriority)
    : SE System unit :=
  match ticket_priorities with
  | [] => ret tt
  | _ :: _ =>
      match fuel with
      | O => raise OutOfFuel
      | S fuel' =>
          let* '(ticket_priority, ticket_priorities') :=
            lift (heappop tp_lt ticket_priorities) in
          assign_one ticket_priority ;;
          drain fuel' ticket_priorities'
      end
  end.

(** The first [n] rounds of the same loop, returning the queue that is left:
    the state between two rounds of a run. *)
Fixpoint rounds (n : nat) (ticket_priorities : list TicketPriority)
    : SE System (list TicketPriority) :=
  match n, ticket_priorities with
  | O, _ => ret ticket_priorities
  | S _, [] => ret []
  | S n', _ :: _ =>
      let* '(ticket_priority, ticket_priorities') :=
        lift (heappop tp_lt ticket_priorities) in
      assign_one ticket_priority ;;
      rounds n' ticket_priorities'
  end.

(** The records the first [n] rounds pop, in the order they are popped. *)
Fixpoint pop_order (n : nat) (ticket_priorities : list TicketPriority)
    : list TicketPriority :=
  match n, ticket_priorities with
  | S n', _ :: _ =>
      match heappop tp_lt ticket_priorities with
      | Ok (ticket_priority, ticket_priorities') =>
          ticket_priority :: pop_order n' ticket_priorities'
      | Raise _ => []
      end
  | _, _ => []
  end.

(** [assign_tickets]: every round of the loop removes one element, so the
    length of the queue bounds the number of rounds. *)
Definition assign_tickets : SE System unit :=
  let* self := get in
  let* ticket_priorities := enqueue (tickets self) [] in
  drain (length ticket_priorities) ticket_priorities.

End AssignmentLoop.

(** ** Analytics *)

Record Summary : Type := mkSummary {
  total_tickets : nat;
  total_agents : nat;
  n_assigned_tickets : nat;
  unassigned_tickets : nat
}.

Record Workload : Type := mkWorkload {
  tickets_assigned : Z;
  priority_load : Q;
  utilization : string
}.

Record SkillGap : Type := mkSkillGap {
  gap_skill : string;
  demand : nat;
  qualified_agents : nat
}.

(** The result of [generate_analytics], without the recommendation texts. *)
Record Analytics : Type := mkAnalytics {
  summary : Summary;
  priority_distribution : dict nat;
  agent_workload : dict Workload;
  skill_demand : dict nat;
  skill_gaps : list SkillGap
}.

(** [counter[k] += 1] on a [defaultdict(int)] *)
Definition bump (k : string) (counter : dict nat) : dict nat :=
  dict_set k (S (default 0%nat (dict_get k counter))) counter.

(** Lines 400-405. *)
Definition summary_of (self : System) : Summary := {|
  total_tickets := length (tickets self);
  total_agents := length (agents self);
  n_assigned_tickets :=
    length (List.filter (fun a => truthy (assigned_agent_id a)) (assignments self));
  unassigned_tickets :=
    length (List.filter (fun a => negb (truthy (assigned_agent_id a)))
              (assignments self))
|}.

(** Lines 416-421: one entry per agent name. *)
Fixpoint workload_table (max_load : Z) (entries : list Agent)
    (table : dict Workload) : result (dict Workload) :=
  match entries with
  | [] => Ok table
  | agent :: entries' =>
      rbind (Py.div (inject_Z (current_load agent)) (inject_Z max_load))
        (fun ratio =>
           workload_table max_load entries'
             (dict_set (name agent)
                {| tickets_assigned := current_load agent;
                   priority_load := round2 (current_priority_load agent);
                   utilization := (format_fixed 1 (ratio * 100) ++ "%")%string |}
                table))
  end.

(** Lines 423-426. *)
Fixpoint demand_table (entries : list Ticket) (table : dict nat)
    : SE System (dict nat) :=
  match entries with
  | [] => ret table
  | ticket :: entries' =>
      let* required_skills := extract_required_skills ticket in
      demand_table entries' (fold_left (fun t skill => bump skill t)
                                       (keys required_skills) table)
  end.

Fixpoint insert_by_demand (x : string * nat) (l : list (string * nat))
    : list (string * nat) :=
  match l with
  | [] => [x]
  | y :: l' =>
      if (snd y <? snd x)%nat then x :: y :: l' else y :: insert_by_demand x l'
  end.

(** [sorted(items, key=lambda x: x[1], reverse=True)] *)
Definition sorted_by_demand (items : list (string * nat)) : list (string * nat) :=
  fold_left (fun acc x => insert_by_demand x acc) items [].

(** Lines 431-439 for one of the most demanded skills. *)
Definition gap_of (all_agents : list Agent) (entry : string * nat)
    : list SkillGap :=
  let '(skill, demand) := entry in
  let agents_with_skill :=
    length (List.filter
              (fun agent =>
                 match dict_get skill (skills agent) with
                 | Some level => (7 <=? level)%Z
                 | None => false
                 end) all_agents) in
  if (agents_with_skill <? 3)%nat
  then [mkSkillGap skill demand agents_with_skill]
  else [].

(** [generate_analytics], lines 399-439. *)
Definition generate_analytics : SE System Analytics :=
  let* self := get in
  let distribution :=
    fold_left (fun t a => bump (urgency_name (priority a)) t) (assignments self) [] in
  let* workload :=
    lift (workload_table (max_load_per_agent (config self))
            (values (agents self)) []) in
  let* skill_demand := demand_table (values (tickets self)) [] in
  let top_demanded_skills := take 10 (sorted_by_demand skill_demand) in
  ret {| summary := summary_of self;
         priority_distribution := distribution;
         agent_workload := workload;
         skill_demand := skill_demand;
         skill_gaps := concat (map (gap_of (values (agents self)))
                                   top_demanded_skills) |}.

(** ** The dataset as parsed JSON, and the validator *)

Module Json.

#[warnings="-register-all"]
Inductive value : Type :=
| Null
| Bool (b : bool)
| Num (q : Q)
| Str (s : string)
| Arr (items : list value)
| Obj (fields : list (string * value)).

(** [key in container] for a string [key]. *)
Definition contains (container : value) (key : string) : result bool :=
  match container with
  | Obj fields => Ok (dict_mem key fields)
  | Arr items =>
      Ok (existsb (fun v => match v with Str s => String.eqb s key | _ => false end)
            items)
  | Str s => Ok (str_in key s)
  | _ => Raise TypeError
  end.

(** [container[key]] for a string [key]. *)
Definition subscript (container : value) (key : string) : result value :=
  match container with
  | Obj fields => getitem fields key
  | _ => Raise TypeError
  end.

(** The elements [for x in container] visits. *)
Definition iterate (container : value) : result (list value) :=
  match container with
  | Arr items => Ok items
  | Obj fields => Ok (map Str (keys fields))
  | Str s => Ok (map (fun c => Str (String c EmptyString)) (list_ascii_of_string s))
  | _ => Raise TypeError
  end.

(** The receiver of [.lower()]: only a string has the method. *)
Definition text_of (v : value) : result string :=
  match v with
  | Str s => Ok s
  | _ => Raise AttributeError
  end.

(** An identifier; identifiers other than strings are outside the model. *)
Definition id_of (v : value) : result string :=
  match v with
  | Str s => Ok s
  | _ => Raise TypeError
  end.

(** A number used in arithmetic. *)
Definition number_of (v : value) : result Q :=
  match v with
  | Num q => Ok q
  | Bool b => Ok (if b then 1 else 0)%Q
  | _ => Raise TypeError
  end.

(** What the [try] block has done when it ends: the messages appended so
    far, and the exception that ended it, if any. *)
Definition checked : Type := list string * option exn.

(** The two [if key not in record] tests on one record of the dataset. *)
Fixpoint check_keys (kind : string) (i : nat) (record : value)
    (required : list string) (errors : list string) : checked :=
  match required with
  | [] => (errors, None)
  | key :: required' =>
      match contains record key with
      | Ok present =>
          check_keys kind i record required'
            (if present then errors
             else errors ++ [(kind ++ " " ++ pretty i ++ " missing '" ++ key
                              ++ "'")%string])
      | Raise e => (errors, Some e)
      end
  end.

(** [for i, record in enumerate(records)] *)
Fixpoint check_records (kind : string) (required : list string)
    (i : nat) (records : list value) (errors : list string) : checked :=
  match records with
  | [] => (errors, None)
  | record :: records' =>
      match check_keys kind i record required errors with
      | (errors, None) => check_records kind required (S i) records' errors
      | raised => raised
      end
  end.

(** [if section in data: for i, record in enumerate(data[section]): ...] *)
Definition check_section (data : value) (section kind : string)
    (required : list string) (errors : list string) : checked :=
  match contains data section with
  | Ok true =>
      match rbind (subscript data section) iterate with
      | Ok records => check_records kind required 0 records errors
      | Raise e => (errors, Some e)
      end
  | Ok false => (errors, None)
  | Raise e => (errors, Some e)
  end.

(** [if key not in data: errors.append(...)] *)
Definition check_present (data : value) (key : string) (errors : list string)
    : checked :=
  match contains data key with
  | Ok present =>
      (if present then errors
       else errors ++ [("Missing '" ++ key ++ "' key in data")%string], None)
  | Raise e => (errors, Some e)
  end.

(** The statements of the [try] block in sequence. *)
Definition validate_body (data : value) : checked :=
  match check_present data "agents" [] with
  | (errors, None) =>
      match check_present data "tickets" errors with
      | (errors, None) =>
          match check_section data "agents" "Agent" ["agent_id"; "skills"]
                  errors with
          | (errors, None) =>
              check_section data "tickets" "Ticket"
                ["ticket_id"; "description"] errors
          | raised => raised
          end
      | raised => raised
      end
  | raised => raised
  end.

(** [validate_data], after [json.load].  The message of a caught exception
    is its text in Python; here it is only the prefix the code adds. *)
Definition validate_data (data : value) : bool * list string :=
  let errors :=
    match validate_body data with
    | (errors, None) => errors
    | (errors, Some _) => errors ++ ["Error loading data: "]
    end in
  (Nat.eqb (length errors) 0, errors).

(** The ticket record the engine works on, read off a JSON object in the
    order in which [calculate_ticket_priority] subscripts it (lines 178,
    179, 214 and 236). *)
Definition ticket_of (ticket : value) : result Ticket :=
  rbind (rbind (subscript ticket "description") text_of) (fun description =>
  rbind (rbind (subscript ticket "title") text_of) (fun title =>
  rbind (rbind (subscript ticket "creation_timestamp") number_of) (fun stamp =>
  rbind (rbind (subscript ticket "ticket_id") id_of) (fun id =>
  Ok (mkTicket id title description stamp))))).

(** [extract_required_skills] on a ticket as the loader hands it over: the
    identifier is read first (line 111), the text only on a cache miss
    (lines 114-115). *)
Definition extract_required_skills (ticket : value) : SE System (dict Q) :=
  let* id := lift (rbind (subscript ticket "ticket_id") id_of) in
  let* self := get in
  match dict_get id (skill_requirements_cache self) with
  | Some cached => ret cached
  | None =>
      let* description :=
        lift (rbind (subscript ticket "description") text_of) in
      let* title := lift (rbind (subscript ticket "title") text_of) in
      extract_required_skills (mkTicket id title description 0)
  end.

(** [calculate_ticket_priority] on a ticket as the loader hands it over. *)
Definition calculate_ticket_priority (cfg : Config) (current_time : Q)
    (ticket : value) : result TicketPriority :=
  rbind (ticket_of ticket) (fun ticket =>
  Ok (calculate_ticket_priority cfg current_time ticket)).

End Json.

(** ** Saving the results, and the whole run *)

(** The object under ['metadata'] in the results. *)
Record Metadata : Type := mkMetadata {
  generated_at : Q;
  m_total_tickets : nat;
  m_total_agents : nat;
  assignments_made : nat
}.

(** The document [save_results] writes to [output_path]. *)
Record Output : Type := mkOutput {
  o_metadata : Metadata;
  o_assignments : list Assignment;
  o_analytics : Analytics
}.

(** One row of [output_result_simplified.json]. *)
Record SimplifiedRow : Type := mkSimplifiedRow {
  s_ticket_id : string;
  s_title : string;
  s_assigned_agent_id : option string;
  s_rationale : string
}.

Definition simplified_row (a : Assignment) : SimplifiedRow := {|
  s_ticket_id := a_ticket_id a;
  s_title := a_title a;
  s_assigned_agent_id := assigned_agent_id a;
  s_rationale := rationale a
|}.

Section Run.

(** The wall clock, as in the assignment loop. *)
Variable clock : nat -> Q.

(** [save_results]: the two documents handed to [json.dump], the full one
    first.  The entries of the dictionary literal are evaluated in the order
    they are written: the clock is read before the analytics are computed. *)
Definition save_results : SE System (Output * list SimplifiedRow) :=
  let* generated := now clock in
  let* self := get in
  let metadata := {|
    generated_at := generated;
    m_total_tickets := length (tickets self);
    m_total_agents := length (agents self);
    assignments_made := length (assignments self) |} in
  let* analytics := generate_analytics in
  let* self := get in
  let output := {|
    o_metadata := metadata;
    o_assignments := assignments self;
    o_analytics := analytics |} in
  ret (output, map simplified_row (take 10 (assignments self))).

(** [run], after [json.load]: the analytics that are printed, and the two
    documents that are saved. *)
Definition run (data_agents : list Agent) (data_tickets : list Ticket)
    : SE System (Analytics * (Output * list SimplifiedRow)) :=
  let* self := get in
  put (load_data data_agents data_tickets self) ;;
  assign_tickets clock ;;
  let* analytics := generate_analytics in
  let* saved := save_results in
  ret (analytics, saved).

End Run.

(** ** The runner ([run_system.py])

    [main] without the optional stages ([--ml-enhanced], [--dashboard]).
    Its input file is the JSON text of a dataset; for a dataset whose
    records have every field that text is [dataset_json]. *)

Definition agent_json (agent : Agent) : Json.value :=
  Json.Obj [("agent_id", Json.Str (agent_id agent));
            ("name", Json.Str (name agent));
            ("skills",
             Json.Obj (map (fun '(skill, level) => (skill, Json.Num (inject_Z level)))
                           (skills agent)));
            ("current_load", Json.Num (inject_Z (current_load agent)));
            ("availability_status", Json.Str (availability_status agent));
            ("experience_level", Json.Num (inject_Z (experience_level agent)))].

Definition ticket_json (ticket : Ticket) : Json.value :=
  Json.Obj [("ticket_id", Json.Str (ticket_id ticket));
            ("title", Json.Str (title ticket));
            ("description", Json.Str (description ticket));
            ("creation_timestamp", Json.Num (creation_timestamp ticket))].

Definition dataset_json (data_agents : list Agent) (data_tickets : list Ticket)
    : Json.value :=
  Json.Obj [("agents", Json.Arr (map agent_json data_agents));
            ("tickets", Json.Arr (map ticket_json data_tickets))].

(** The figures of the summary [main] prints. *)
Record MainSummary : Type := mkMainSummary {
  shown_total : nat;
  shown_assigned : nat;
  shown_unassigned : nat;
  success_rate : Q
}.

Section Runner.
Variable clock : nat -> Q.

(** The stages of [main] between the validation and the summary. *)
Definition main_stages (data_agents : list Agent) (data_tickets : list Ticket)
    : SE System Analytics :=
  let* self := get in
  put (load_data data_agents data_tickets self) ;;
  assign_tickets clock ;;
  save_results clock ;;
  generate_analytics.

(** [main]: [inl code] when it leaves through [sys.exit(code)], otherwise
    the summary it prints. *)
Definition main (cfg : Config) (validate_only : bool)
    (data_agents : list Agent) (data_tickets : list Ticket)
    : result (Z + MainSummary) :=
  let '(is_valid, errors) :=
    Json.validate_data (dataset_json data_agents data_tickets) in
  if negb is_valid then Ok (inl 1%Z)
  else if validate_only then Ok (inl 0%Z)
  else
    rbind (main_stages data_agents data_tickets (init cfg)) (fun '(analytics, _) =>
    let assigned := n_assigned_tickets (summary analytics) in
    let total := total_tickets (summary analytics) in
    rbind (Py.div (inject_Z (Z.of_nat assigned)) (inject_Z (Z.of_nat total)))
      (fun ratio =>
         Ok (inr {| shown_total := total;
                    shown_assigned := assigned;
                    shown_unassigned := unassigned_tickets (summary analytics);
                    success_rate := (ratio * 100)%Q |}))).

End Runner.

(** ** Utilities ([utils.py]) *)

(** *** More of Python's strings *)

(** [c.isspace()] on an ASCII character. *)
Definition is_space (c : ascii) : bool :=
  let n := nat_of_ascii c in
  ((9 <=? n) && (n <=? 13) || (28 <=? n) && (n <=? 32))%nat.

(** [s.split()], reading [s] from the left with the word begun so far. *)
Fixpoint split_from (word : string) (s : string) : list string :=
  match s with
  | EmptyString => if String.eqb word "" then [] else [word]
  | String c s' =>
      if is_space c
      then (if String.eqb word "" then split_from "" s'
            else word :: split_from "" s')
      else split_from (word ++ String c "") s'
  end.

Definition str_split (s : string) : list string := split_from "" s.

Fixpoint lstrip (s : string) : string :=
  match s with
  | EmptyString => EmptyString
  | String c s' => if is_space c then lstrip s' else s
  end.

(** [s.strip()] *)
Definition strip (s : string) : string :=
  String.rev (lstrip (String.rev (lstrip s))).

(** A character of the class [[.!?]]. *)
Definition is_mark (c : ascii) : bool :=
  Ascii.eqb c "." || Ascii.eqb c "!" || Ascii.eqb c "?".

(** [re.split(r'[.!?]+', s)], with the piece begun so far and whether the
    last character read belongs to a separator. *)
Fixpoint re_split_from (piece : string) (in_run : bool) (s : string)
    : list string :=
  match s with
  | EmptyString => [piece]
  | String c s' =>
      if is_mark c
      then (if in_run then re_split_from "" true s'
            else piece :: re_split_from "" true s')
      else re_split_from (piece ++ String c "") false s'
  end.

Definition re_split_marks (s : string) : list string := re_split_from "" false s.

(** [sum(len(word) for word in words)] *)
Definition total_length (words : list string) : nat :=
  fold_right (fun word total => String.length word + total) 0 words.

(** Insertion of [x] after the entries whose value is at least its own. *)
Fixpoint insert_by_score (x : string * Q) (l : list (string * Q))
    : list (string * Q) :=
  match l with
  | [] => [x]
  | y :: l' =>
      if Qltb (snd y) (snd x) then x :: y :: l' else y :: insert_by_score x l'
  end.

(** [items.sort(key=lambda x: x[1], reverse=True)]: a stable sort by
    descending value. *)
Definition sort_by_score (items : list (string * Q)) : list (string * Q) :=
  fold_left (fun acc x => insert_by_score x acc) items [].

Module Utils.

(** *** [TicketUtils] *)

Record TicketAge : Type := mkTicketAge {
  seconds : Q;
  minutes : Q;
  hours : Q;
  days : Q;
  age_category : string
}.

Definition _categorize_age (hours : Q) : string :=
  if Qltb hours 1 then "new"
  else if Qltb hours 4 then "recent"
  else if Qltb hours 24 then "pending"
  else if Qltb hours 72 then "aging"
  else "overdue".

(** [calculate_ticket_age], with [current_time] the clock reading of its
    first line. *)
Definition calculate_ticket_age (current_time : Q) (timestamp : Q) : TicketAge :=
  let age_seconds := (current_time - timestamp)%Q in
  {| seconds := age_seconds;
     minutes := (age_seconds / 60)%Q;
     hours := (age_seconds / 3600)%Q;
     days := (age_seconds / 86400)%Q;
     age_category := _categorize_age (age_seconds / 3600)%Q |}.

Definition technical_terms : list string :=
  ["api"; "sql"; "dns"; "vpn"; "ssl"; "tcp"; "udp"; "http"; "https";
   "cpu"; "ram"; "gpu"; "ssd"; "hdd"; "raid"; "backup"; "restore"].

Definition calculate_text_complexity (text : string) : result Q :=
  let words := str_split text in
  match words with
  | [] => Ok 0%Q
  | _ :: _ =>
      rbind (Py.div (inject_Z (Z.of_nat (total_length words)))
                    (inject_Z (Z.of_nat (length words))))
        (fun avg_word_length =>
           let sentences := re_split_marks text in
           let sentence_count :=
             length (List.filter (fun s => negb (String.eqb (strip s) ""))
                                 sentences) in
           let tech_count := count_in technical_terms (lower text) in
           let complexity :=
             ((avg_word_length / 5) * 0.3 +
              (inject_Z (Z.of_nat (length words)) / 100) * 0.3 +
              (inject_Z (Z.of_nat sentence_count) / 10) * 0.2 +
              (inject_Z tech_count / 5) * 0.2)%Q in
           Ok (Py.min complexity 1.0))
  end.

(** [set(text.lower().split())] of a ticket's title and description. *)
Definition words_of (ticket : Ticket) : gset string :=
  list_to_set (str_split (lower (title ticket ++ " " ++ description ticket))).

(** [len(intersection) / len(union)] *)
Definition similarity (words1 words2 : gset string) : result Q :=
  Py.div (inject_Z (Z.of_nat (size (words1 ∩ words2))))
         (inject_Z (Z.of_nat (size (words1 ∪ words2)))).

(** The inner loop of [detect_duplicate_tickets], over the tickets after
    [ticket1]. *)
Fixpoint scan_later (threshold : Q) (ticket1 : Ticket) (later : list Ticket)
    (processed : gset string) (similar_group : list string)
    : result (list string * gset string) :=
  match later with
  | [] => Ok (similar_group, processed)
  | ticket2 :: later' =>
      if bool_decide (ticket_id ticket2 ∈ processed)
      then scan_later threshold ticket1 later' processed similar_group
      else
        let words1 := words_of ticket1 in
        let words2 := words_of ticket2 in
        if bool_decide (words1 ≠ ∅) && bool_decide (words2 ≠ ∅) then
          rbind (similarity words1 words2) (fun similarity =>
          if Qgeb similarity threshold
          then scan_later threshold ticket1 later'
                 ({[ticket_id ticket2]} ∪ processed)
                 (similar_group ++ [ticket_id ticket2])
          else scan_later threshold ticket1 later' processed similar_group)
        else scan_later threshold ticket1 later' processed similar_group
  end.

(** The outer loop, over the tickets from [ticket1] on. *)
Fixpoint detect_from (threshold : Q) (tickets : list Ticket)
    (processed : gset string) (duplicates : list (list string))
    : result (list (list string)) :=
  match tickets with
  | [] => Ok duplicates
  | ticket1 :: later =>
      if bool_decide (ticket_id ticket1 ∈ processed)
      then detect_from threshold later processed duplicates
      else
        rbind (scan_later threshold ticket1 later processed [ticket_id ticket1])
          (fun '(similar_group, processed) =>
             if (1 <? length similar_group)%nat
             then detect_from threshold later
                    ({[ticket_id ticket1]} ∪ processed)
                    (duplicates ++ [similar_group])
             else detect_from threshold later processed duplicates)
  end.

Definition detect_duplicate_tickets (tickets : list Ticket) (threshold : Q)
    : result (list (list string)) :=
  detect_from threshold tickets ∅ [].

(** *** [AgentUtils] *)

Record Capacity : Type := mkCapacity {
  c_current_load : Z;
  max_load : Z;
  remaining_capacity : Z;
  utilization_percentage : Q;
  is_available : bool;
  can_accept_more : bool;
  status : string
}.

Definition status_of (utilization_percentage : Q) : string :=
  if Qgeb utilization_percentage 90 then "overloaded"
  else if Qgeb utilization_percentage 70 then "busy"
  else if Qgeb utilization_percentage 40 then "moderate"
  else "available".

(** [calculate_agent_capacity]; [config] is a dictionary of integer
    options. *)
Definition calculate_agent_capacity (agent : Agent) (config : dict Z)
    : result Capacity :=
  let max_load := default 10%Z (dict_get "max_load_per_agent" config) in
  let current_load := current_load agent in
  rbind (Py.div (inject_Z current_load) (inject_Z max_load)) (fun ratio =>
  let utilization_percentage := (ratio * 100)%Q in
  Ok {| c_current_load := current_load;
        max_load := max_load;
        remaining_capacity := (max_load - current_load)%Z;
        utilization_percentage := utilization_percentage;
        is_available := String.eqb (availability_status agent) "Available";
        can_accept_more := (current_load <? max_load)%Z;
        status := status_of utilization_percentage |}).

(** The inner loop of [find_backup_agents]. *)
Definition overlap_score_of (agent : Agent) (required_skills : list string) : Z :=
  fold_left
    (fun overlap_score skill =>
       match dict_get skill (skills agent) with
       | Some level => (overlap_score + level)%Z
       | None => overlap_score
       end)
    required_skills 0%Z.

Definition backup_score (agent : Agent) (overlap_score : Z) : Q :=
  let final_score := (inject_Z overlap_score * 0.6)%Q in
  let final_score :=
    if String.eqb (availability_status agent) "Available"
    then (final_score + 20)%Q else final_score in
  (final_score + inject_Z (experience_level agent) * 0.5)%Q.

(** The list [backups] when the loop over the agents ends. *)
Fixpoint backup_candidates (primary_agent : Agent)
    (entries : list (string * Agent)) (required_skills : list string)
    : list (string * Q) :=
  match entries with
  | [] => []
  | (agent_id_key, agent) :: entries' =>
      if String.eqb agent_id_key (agent_id primary_agent)
      then backup_candidates primary_agent entries' required_skills
      else
        let overlap_score := overlap_score_of agent required_skills in
        if (0 <? overlap_score)%Z
        then (agent_id_key, backup_score agent overlap_score)
             :: backup_candidates primary_agent entries' required_skills
        else backup_candidates primary_agent entries' required_skills
  end.

Definition find_backup_agents (primary_agent : Agent) (all_agents : dict Agent)
    (required_skills : list string) : list (string * Q) :=
  take 3 (sort_by_score
            (backup_candidates primary_agent all_agents required_skills)).

End Utils.

(** ** The priority calculator as the specification words it

    The rules of section 4.2 of the specification, written independently of
    the code above and compared with it below. *)






(** The importance the specification gives a skill with [count] matching
    trigger phrases out of [phrases]. *)
Definition spec_importance (count phrases : Z) : Q :=
  Qmin (inject_Z count / inject_Z phrases) 1.

(** The mapping of section 4.1: the skills with at least one matching
    trigger phrase, each with its importance, in the order of the lexicon. *)
Definition spec_required_skills (lexicon : dict (list string)) (text : string)
    : list (string * Q) :=
  omap (fun '(skill, keywords) =>
          let count := count_in keywords text in
          if (0 <? count)%Z
          then Some (skill, spec_importance count (Z.of_nat (length keywords)))
          else None)
       lexicon.

(** Two entries with the same skill and equal importance. *)
Definition same_entry (x y : string * Q) : Prop :=
  fst x = fst y /\ (snd x == snd y)%Q.

(** ** Sample datasets *)

(** A wall clock that advances one second per reading. *)
Definition sample_clock (k : nat) : Q := 1700000000 + inject_Z (Z.of_nat k).

Definition agent_ann : Agent :=
  mkAgent "agent_001" "Ann" [("Networking", 9%Z)] 0 "Available" 10 [] 0.

(** Not available, and at the default load limit. *)
Definition agent_bob : Agent :=
  mkAgent "agent_002" "Bob" [("Networking", 5%Z)] 10 "Busy" 6 [] 0.

(** Far over the load limit. *)
Definition agent_cy : Agent :=
  mkAgent "agent_003" "Cy" [] 1000 "Available" 0 [] 0.

Definition agent_di : Agent :=
  mkAgent "agent_004" "Di" [] 2000 "Available" 0 [] 0.

(** Enters the run with three open tickets. *)
Definition agent_eve : Agent :=
  mkAgent "agent_005" "Eve" [("Printer_Troubleshooting", 8%Z)] 3 "Available" 5 [] 0.

Definition ticket_network : Ticket :=
  mkTicket "TKT-A" "Network"
    "network down for everyone, production outage" 1699990000.

Definition ticket_printer : Ticket :=
  mkTicket "TKT-B" "Printer" "printer out of paper" 1699990000.

(** A text no trigger phrase of the lexicon occurs in. *)
Definition ticket_plain : Ticket :=
  mkTicket "TKT-C" "Question" "please call me back" 1699990000.

(** The identifier of [ticket_printer] on another text. *)
Definition ticket_printer_reworded : Ticket :=
  mkTicket "TKT-B" "VPN" "vpn tunnel drops on the linux server" 1699990000.

(** A ticket with the two keys the validator asks for and no title. *)
Definition json_ticket_without_title : Json.value :=
  Json.Obj [("ticket_id", Json.Str "TKT-D");
            ("description", Json.Str "printer out of paper")].

(** The record of [ticket_printer], and a record with its identifier only. *)
Definition json_ticket_printer : Json.value :=
  Json.Obj [("ticket_id", Json.Str "TKT-B");
            ("title", Json.Str "Printer");
            ("description", Json.Str "printer out of paper");
            ("creation_timestamp", Json.Num 1699990000)].

Definition json_ticket_id_only : Json.value :=
  Json.Obj [("ticket_id", Json.Str "TKT-B")].

Definition json_dataset : Json.value :=
  Json.Obj [("agents",
             Json.Arr [Json.Obj [("agent_id", Json.Str "agent_001");
                                 ("skills", Json.Obj [("Networking", Json.Num 9)])]]);
            ("tickets", Json.Arr [json_ticket_without_title])].

(** ** Invariants and effects the statements use *)

Section HeapInvariant.
Context {A : Type} (lt : A -> A -> bool).
Implicit Types heap : list A.

(** [heap_le a b]: [b] is not smaller than [a]. *)
Definition heap_le (a b : A) : Prop := lt b a = false.

(** The heap invariant of [heapq]: no element is smaller than its parent. *)
Definition heap_ordered heap : Prop :=
  forall i x p,
    0 < i -> heap !! i = Some x -> heap !! parent_of i = Some p -> heap_le p x.

(** The invariant everywhere but at [pos]: the edges that do not touch
    [pos] are in order, and the parent of [pos] is not above the children
    of [pos]. *)
Definition ordered_off heap (pos : nat) : Prop :=
  (forall i x p,
     0 < i -> i <> pos -> parent_of i <> pos ->
     heap !! i = Some x -> heap !! parent_of i = Some p -> heap_le p x) /\
  (forall c x g,
     0 < pos -> 0 < c -> parent_of c = pos ->
     heap !! c = Some x -> heap !! parent_of pos = Some g -> heap_le g x).

(** [x] is not above the children of [pos]. *)
Definition below_children heap (pos : nat) (x : A) : Prop :=
  forall c y, 0 < c -> parent_of c = pos -> heap !! c = Some y -> heap_le x y.

End HeapInvariant.

(** What a call leaves alone when it touches only the cache. *)
Definition same_engine (self self' : System) : Prop :=
  agents self' = agents self /\
  tickets self' = tickets self /\
  assignments self' = assignments self /\
  config self' = config self /\
  agent_performance_history self' = agent_performance_history self /\
  clock_reads self' = clock_reads self.

(** Only the clock has been read. *)
Definition same_but_clock (self self' : System) : Prop :=
  agents self' = agents self /\
  tickets self' = tickets self /\
  assignments self' = assignments self /\
  config self' = config self /\
  skill_requirements_cache self' = skill_requirements_cache self /\
  agent_performance_history self' = agent_performance_history self.

(** Every ticket is stored under its own identifier. *)
Definition tickets_keyed (self : System) : Prop :=
  forall k ticket, dict_get k (tickets self) = Some ticket -> ticket_id ticket = k.

(** Scoring cannot divide by zero: the load limit is not zero, or there is
    no agent to score. *)
Definition can_score (self : System) : Prop :=
  max_load_per_agent (config self) <> 0%Z \/ agents self = [].

(** The effect of one round of the loop, for the priority record [tp] that
    was popped: one record is appended for its ticket, and either nothing
    else changes, or one agent takes the ticket. *)
Definition round_effect (tp : TicketPriority) (self self' : System) : Prop :=
  tickets self' = tickets self /\
  config self' = config self /\
  agent_performance_history self' = agent_performance_history self /\
  exists a,
    assignments self' = assignments self ++ [a] /\
    a_ticket_id a = tp_ticket_id tp /\
    priority a = urgency_level tp /\
    a_priority_score a = round2 (priority_score tp) /\
    ((assigned_agent_id a = None /\
      assigned_agent_name a = "UNASSIGNED" /\
      rationale a = unassigned_rationale /\
      agents self' = agents self) \/
     (exists best agent ticket,
        assigned_agent_id a = Some best /\ best <> "" /\
        dict_get best (agents self) = Some agent /\
        dict_get (tp_ticket_id tp) (tickets self) = Some ticket /\
        agents self' = dict_set best (take_ticket ticket tp agent) (agents self))).

(** The effect of the rounds for a sequence of popped records. *)
Inductive rounds_effect : list TicketPriority -> System -> System -> Prop :=
| rounds_effect_nil self : rounds_effect [] self self
| rounds_effect_cons tp tps self self1 self2 :
    round_effect tp self self1 ->
    rounds_effect tps self1 self2 ->
    rounds_effect (tp :: tps) self self2.

(** The load of an agent minus the number of tickets it was given here. *)
Definition load_before (agent : Agent) : Z :=
  (current_load agent - Z.of_nat (length (assigned_tickets agent)))%Z.

(** The score of an agent for a ticket with required skills [rs], where the
    weighted sum is defined. *)
Definition score_with (cfg : Config) (history_table : dict History)
    (rs : dict Q) (tp : TicketPriority) (agent : Agent) : Q :=
  match weighted_sum cfg history_table agent rs tp with
  | Ok base => apply_penalties cfg agent base
  | Raise _ => 0%Q
  end.

(** One step of the scan, the score of each agent being given. *)
Definition scan_pure (score : Agent -> Q) (scan : Scan)
    (entry : string * Agent) : Scan :=
  if Qltb (best_score scan) (score (snd entry))
  then mkScan (Some (fst entry)) (score (snd entry))
         (dict_set (fst entry) (score (snd entry)) (agent_scores scan))
         (Some (fst entry))
  else mkScan (best_agent_id scan) (best_score scan)
         (dict_set (fst entry) (score (snd entry)) (agent_scores scan))
         (Some (fst entry)).

(** The records of a log that name the agent stored under [k]. *)
Definition records_of (k : string) (log : list Assignment) : list Assignment :=
  List.filter (fun a => bool_decide (assigned_agent_id a = Some k)) log.

(** The priority scores of the popped records whose log record names the
    agent stored under [k], summed; the i-th record of the log belongs to
    the i-th popped record. *)
Fixpoint priority_taken (k : string) (popped : list TicketPriority)
    (log : list Assignment) : Q :=
  match popped, log with
  | tp :: popped', a :: log' =>
      if bool_decide (assigned_agent_id a = Some k)
      then (priority_score tp + priority_taken k popped' log')%Q
      else priority_taken k popped' log'
  | _, _ => 0%Q
  end.

(** The fields of an agent that describe it, as opposed to its load. *)
Definition same_profile (agent agent' : Agent) : Prop :=
  agent_id agent' = agent_id agent /\
  name agent' = name agent /\
  skills agent' = skills agent /\
  availability_status agent' = availability_status agent /\
  experience_level agent' = experience_level agent.

(** The priority records the first phase of [assign_tickets] computes for
    the tickets [entries], the clock having been read [start] times. *)
Definition queued_priorities (clock : nat -> Q) (cfg : Config) (start : nat)
    (entries : list Ticket) : list TicketPriority :=
  imap (fun i ticket =>
          calculate_ticket_priority cfg (clock (start + i)%nat) ticket)
       entries.

(** What the log shows of a priority record. *)
Definition shown_priority (tp : TicketPriority) : string * Q * Urgency :=
  (tp_ticket_id tp, round2 (priority_score tp), urgency_level tp).

(** * Properties *)

(** ** Facts about the Python primitives *)

Section PyFacts.
Context {V : Type}.
Implicit Types (d : dict V) (k : string) (v : V).

Lemma dict_get_set_eq k v d : dict_get k (dict_set k v d) = Some v.
Proof.
  induction d as [|[k' v'] d IH]; simpl.
  - by rewrite String.eqb_refl.
  - destruct (String.eqb k k') eqn:E; simpl; [by rewrite String.eqb_refl|].
    by rewrite E.
Qed.

Lemma dict_get_set_ne k k' v d :
  k <> k' -> dict_get k' (dict_set k v d) = dict_get k' d.
Proof.
  intros Hne. induction d as [|[k0 v0] d IH]; simpl.
  - destruct (String.eqb k' k) eqn:E; [|done].
    apply String.eqb_eq in E. congruence.
  - destruct (String.eqb k k0) eqn:E; simpl.
    + apply String.eqb_eq in E. subst k0.
      destruct (String.eqb k' k) eqn:E'; [|done].
      apply String.eqb_eq in E'. congruence.
    + by rewrite IH.
Qed.

Lemma dict_get_None k d : dict_get k d = None <-> k ∉ keys d.
Proof.
  induction d as [|[k' v'] d IH]; simpl.
  - split; [intros _; apply not_elem_of_nil | done].
  - rewrite not_elem_of_cons. destruct (String.eqb k k') eqn:E.
    + apply String.eqb_eq in E. split; [done | tauto].
    + apply String.eqb_neq in E. tauto.
Qed.

Lemma dict_get_Some_in k v d : dict_get k d = Some v -> (k, v) ∈ d.
Proof.
  induction d as [|[k' v'] d IH]; simpl; [done|].
  destruct (String.eqb k k') eqn:E.
  - apply String.eqb_eq in E. intros [= ->]. subst. apply list_elem_of_here.
  - intros H. apply list_elem_of_further. auto.
Qed.

Lemma dict_get_is_key k v d : dict_get k d = Some v -> k ∈ keys d.
Proof.
  intros H. apply dict_get_Some_in in H.
  unfold keys. apply list_elem_of_fmap. by exists (k, v).
Qed.

Lemma dict_get_key_Some k d : k ∈ keys d -> exists v, dict_get k d = Some v.
Proof.
  intros H. destruct (dict_get k d) eqn:E; [eauto|].
  by apply dict_get_None in E.
Qed.

Lemma keys_dict_set_old k v d :
  k ∈ keys d -> keys (dict_set k v d) = keys d.
Proof.
  induction d as [|[k' v'] d IH]; simpl; [by intros ?%elem_of_nil|].
  destruct (String.eqb k k') eqn:E; simpl.
  - apply String.eqb_eq in E. by subst.
  - apply String.eqb_neq in E. intros [?|?]%elem_of_cons; [done|].
    by rewrite IH.
Qed.

Lemma keys_dict_set_new k v d :
  k ∉ keys d -> keys (dict_set k v d) = keys d ++ [k].
Proof.
  induction d as [|[k' v'] d IH]; simpl; [done|].
  rewrite not_elem_of_cons. intros [Hne Hnot].
  apply String.eqb_neq in Hne. rewrite Hne. simpl. by rewrite IH.
Qed.

Lemma keys_dict_set_NoDup k v d : NoDup (keys d) -> NoDup (keys (dict_set k v d)).
Proof.
  intros Hd. destruct (decide (k ∈ keys d)) as [Hin|Hin].
  - by rewrite keys_dict_set_old.
  - rewrite keys_dict_set_new by done.
    apply NoDup_app. repeat split; [done | | apply NoDup_singleton].
    intros x Hx ->%list_elem_of_singleton. done.
Qed.

Lemma length_dict_set_old k v d : k ∈ keys d -> length (dict_set k v d) = length d.
Proof.
  intros H. pose proof (keys_dict_set_old k v d H) as Hk.
  apply (f_equal length) in Hk. unfold keys in Hk. by rewrite !length_map in Hk.
Qed.

(** What a dictionary comprehension over a list holds. *)
Lemma dict_of_spec (key : V -> string) (xs : list V) :
  NoDup (keys (dict_of key xs)) /\
  (forall k, k ∈ keys (dict_of key xs) <-> exists x, x ∈ xs /\ key x = k) /\
  (forall k v, dict_get k (dict_of key xs) = Some v -> key v = k /\ v ∈ xs).
Proof.
  unfold dict_of.
  cut (forall d,
         NoDup (keys d) ->
         NoDup (keys (fold_left (fun d x => dict_set (key x) x d) xs d)) /\
         (forall k, k ∈ keys (fold_left (fun d x => dict_set (key x) x d) xs d)
                    <-> k ∈ keys d \/ exists x, x ∈ xs /\ key x = k) /\
         (forall k v, dict_get k (fold_left (fun d x => dict_set (key x) x d) xs d)
                      = Some v ->
                      dict_get k d = Some v \/ (key v = k /\ v ∈ xs))).
  { intros H. destruct (H [] (NoDup_nil_2)) as (H1 & H2 & H3).
    split; [done|]. split.
    - intros k. rewrite H2. split; [intros [?%elem_of_nil|?]; done | auto].
    - intros k v Hk. destruct (H3 k v Hk) as [?|?]; done. }
  induction xs as [|x xs IH]; intros d Hd; simpl.
  - split; [done|]. split; [|auto].
    intros k. split; [auto|]. intros [?|(x & ?%elem_of_nil & _)]; done.
  - destruct (IH (dict_set (key x) x d)) as (H1 & H2 & H3).
    { by apply keys_dict_set_NoDup. }
    split; [done|]. split.
    + intros k. rewrite H2. split.
      * intros [Hk|(y & Hy & <-)].
        -- destruct (decide (key x ∈ keys d)) as [Hin|Hin].
           ++ rewrite keys_dict_set_old in Hk by done. auto.
           ++ rewrite keys_dict_set_new in Hk by done.
              apply elem_of_app in Hk as [?| ->%list_elem_of_singleton]; [auto|].
              right. exists x. split; [apply list_elem_of_here | done].
        -- right. exists y. split; [by apply list_elem_of_further | done].
      * intros [Hk|(y & [-> | Hy]%elem_of_cons & <-)].
        -- left. destruct (decide (key x ∈ keys d)) as [Hin|Hin].
           ++ by rewrite keys_dict_set_old.
           ++ rewrite keys_dict_set_new by done. apply elem_of_app. auto.
        -- left. eapply dict_get_is_key, dict_get_set_eq.
        -- right. eauto.
    + intros k v Hk. destruct (H3 k v Hk) as [Hget|[<- Hv]].
      * destruct (decide (key x = k)) as [<-|Hne].
        -- rewrite dict_get_set_eq in Hget. injection Hget as <-.
           right. split; [done | apply list_elem_of_here].
        -- rewrite dict_get_set_ne in Hget by done. auto.
      * right. split; [done | by apply list_elem_of_further].
Qed.

End PyFacts.
(** *** The queue keeps its elements *)

Section HeapqPermutation.
Context {A : Type} (lt : A -> A -> bool).
Implicit Types heap : list A.

Lemma parent_of_lt pos : 0 < pos -> parent_of pos < pos.
Proof.
  intros Hpos. unfold parent_of.
  change (Nat.shiftr (pos - 1) 1) with (Nat.div2 (pos - 1)).
  pose proof (Nat.div2_decr (pos - 1) (pos - 1)). lia.
Qed.

Lemma item_lookup heap i x : item heap i = Ok x <-> heap !! i = Some x.
Proof.
  unfold item. destruct (heap !! i); split; intros H; inversion H; auto.
Qed.

Lemma item_in_range heap i :
  i < length heap -> exists x, item heap i = Ok x /\ heap !! i = Some x.
Proof.
  intros Hi. destruct (lookup_lt_is_Some_2 heap i Hi) as [x Hx].
  exists x. split; [by apply item_lookup | done].
Qed.

Lemma setitem_in_range heap i x :
  i < length heap -> setitem heap i x = Ok (<[i:=x]> heap).
Proof. intros Hi. unfold setitem. by rewrite decide_True. Qed.

(** Overwriting a slot trades the old content for the new one. *)
Lemma insert_trade heap i x old :
  heap !! i = Some old -> x :: heap ≡ₚ old :: <[i:=x]> heap.
Proof.
  revert i. induction heap as [|y heap IH]; intros [|i] Hi; simpl in *; try done.
  - inversion Hi; subst. apply perm_swap.
  - rewrite perm_swap. rewrite (IH i Hi). apply perm_swap.
Qed.

(** Moving the content of slot [j] into slot [i] and [x] into slot [j] is
    a permutation of putting [x] into slot [i]. *)
Lemma insert_shift heap i j x y :
  i < length heap -> i <> j -> heap !! j = Some y ->
  <[j:=x]> (<[i:=y]> heap) ≡ₚ <[i:=x]> heap.
Proof.
  intros Hi Hij Hj.
  destruct (lookup_lt_is_Some_2 heap i Hi) as [old Hold].
  pose proof (insert_trade heap i y old Hold) as H1.
  pose proof (insert_trade heap i x old Hold) as H2.
  assert (Hj' : <[i:=y]> heap !! j = Some y) by (by rewrite list_lookup_insert_ne).
  pose proof (insert_trade _ j x y Hj') as H3.
  apply (Permutation_cons_inv (a := y)), (Permutation_cons_inv (a := old)).
  etrans; [apply perm_skip; symmetry; apply H3|].
  etrans; [apply perm_swap|].
  etrans; [apply perm_skip; symmetry; apply H1|].
  etrans; [apply perm_swap|].
  etrans; [apply perm_skip; apply H2|].
  apply perm_swap.
Qed.

Lemma siftdown_loop_spec heap startpos pos newitem :
  pos < length heap ->
  exists heap' pos',
    siftdown_loop lt heap startpos pos newitem = Ok (heap', pos') /\
    pos' < length heap' /\ length heap' = length heap /\
    <[pos':=newitem]> heap' ≡ₚ <[pos:=newitem]> heap.
Proof.
  funelim (siftdown_loop lt heap startpos pos newitem); intros Hpos.
  - eexists _, _; eauto.
  - pose proof (parent_of_lt pos ltac:(lia)) as Hp.
    destruct (item_in_range heap (parent_of pos) ltac:(lia)) as (? & ? & _).
    congruence.
  - eexists _, _; eauto.
  - pose proof (parent_of_lt pos ltac:(lia)) as Hp.
    rewrite setitem_in_range in Heq by done. inversion Heq; subst heap'.
    apply item_lookup in Heq1.
    destruct H as (heap2 & pos2 & Hrun & Hlt & Hlen & Hperm).
    { rewrite length_insert. lia. }
    exists heap2, pos2. rewrite length_insert in Hlen.
    repeat split; try done.
    rewrite Hperm. apply insert_shift; [done | lia | done].
  - rewrite setitem_in_range in Heq by done. discriminate.
Qed.

Lemma siftdown_spec heap startpos pos :
  pos < length heap ->
  exists heap', siftdown lt heap startpos pos = Ok heap' /\
                length heap' = length heap /\ heap' ≡ₚ heap.
Proof.
  intros Hpos. unfold siftdown.
  destruct (item_in_range heap pos Hpos) as (newitem & -> & Hnew). simpl.
  destruct (siftdown_loop_spec heap startpos pos newitem Hpos)
    as (heap' & pos' & -> & Hlt & Hlen & Hperm). simpl.
  rewrite setitem_in_range by done. eexists; split; [done|].
  rewrite length_insert, Hperm, list_insert_id by done. done.
Qed.

Lemma siftup_loop_spec heap endpos pos newitem :
  endpos = length heap -> pos < endpos ->
  exists heap' pos',
    siftup_loop lt heap endpos pos = Ok (heap', pos') /\
    pos <= pos' < length heap' /\ length heap' = length heap /\
    <[pos':=newitem]> heap' ≡ₚ <[pos:=newitem]> heap.
Proof.
  funelim (siftup_loop lt heap endpos pos); intros Hend Hpos.
  - eexists _, _; repeat split; eauto; lia.
  - exfalso. unfold right_is_smaller in Heq. clear Heq0.
    destruct (item_in_range heap (2 * pos + 1) ltac:(lia)) as (? & Hl & _).
    case_decide; [|done]. rewrite Hl in Heq. cbn [rbind] in Heq.
    destruct (item_in_range heap (2 * pos + 1 + 1) ltac:(lia)) as (? & Hr & _).
    rewrite Hr in Heq. done.
  - exfalso.
    assert (Hc : pick_child (2 * pos + 1) use_right < length heap).
    { unfold pick_child. destruct use_right; [|lia].
      unfold right_is_smaller in Heq0. clear Heq1.
      case_decide; [lia | done]. }
    destruct (item_in_range heap _ Hc) as (? & ? & _). congruence.
  - assert (Hc : pos < pick_child (2 * pos + 1) use_right < length heap).
    { unfold pick_child. destruct use_right; [|lia].
      unfold right_is_smaller in Heq1. clear Heq2.
      case_decide; [lia | done]. }
    rewrite setitem_in_range in Heq by lia. inversion Heq; subst heap'.
    apply item_lookup in Heq0.
    destruct (H newitem) as (heap2 & pos2 & Hrun & Hlt & Hlen & Hperm).
    { by rewrite length_insert. }
    { lia. }
    exists heap2, pos2. rewrite length_insert in Hlen.
    repeat split; try done; try lia.
    rewrite Hperm. apply insert_shift; [lia | lia | done].
  - rewrite setitem_in_range in Heq by lia. discriminate.
Qed.

Lemma siftup_spec heap pos :
  pos < length heap ->
  exists heap', siftup lt heap pos = Ok heap' /\
                length heap' = length heap /\ heap' ≡ₚ heap.
Proof.
  intros Hpos. unfold siftup.
  destruct (item_in_range heap pos Hpos) as (newitem & -> & Hnew). simpl.
  destruct (siftup_loop_spec heap (length heap) pos newitem eq_refl Hpos)
    as (heap' & pos' & -> & Hlt & Hlen & Hperm). simpl.
  rewrite setitem_in_range by lia. simpl.
  destruct (siftdown_spec (<[pos':=newitem]> heap') pos pos')
    as (heap2 & -> & Hlen2 & Hperm2).
  { rewrite length_insert. lia. }
  eexists; split; [done|].
  rewrite Hlen2, Hperm2, length_insert, Hperm, list_insert_id by done. done.
Qed.

Lemma heappush_spec heap x :
  exists heap', heappush lt heap x = Ok heap' /\
                length heap' = S (length heap) /\ heap' ≡ₚ x :: heap.
Proof.
  unfold heappush.
  destruct (siftdown_spec (heap ++ [x]) 0 (length (heap ++ [x]) - 1))
    as (heap' & -> & Hlen & Hperm).
  { rewrite length_app. simpl. lia. }
  exists heap'. split; [done|].
  rewrite Hlen, Hperm, length_app, <- Permutation_cons_append. simpl.
  split; [lia | done].
Qed.

Lemma list_pop_snoc heap x : list_pop (heap ++ [x]) = Ok (x, heap).
Proof. unfold list_pop. by rewrite last_snoc, removelast_last. Qed.

Lemma heappop_spec heap :
  heap <> [] ->
  exists x heap', heappop lt heap = Ok (x, heap') /\
                  S (length heap') = length heap /\ x :: heap' ≡ₚ heap.
Proof.
  intros Hne. destruct (exists_last Hne) as (front & lastelt & ->).
  unfold heappop. rewrite list_pop_snoc. simpl.
  destruct front as [|returnitem rest].
  - exists lastelt, []. done.
  - simpl. unfold setitem. simpl.
    destruct (siftup_spec (lastelt :: rest) 0) as (heap' & -> & Hlen & Hperm).
    { simpl. lia. }
    exists returnitem, heap'. split; [done|].
    rewrite length_app, <- Permutation_cons_append, Hlen, Hperm. simpl.
    split; [lia | by apply perm_skip].
Qed.

End HeapqPermutation.

(** *** The queue keeps its order *)

Section HeapqOrder.
Context {A : Type} (lt : A -> A -> bool).
Implicit Types heap : list A.

Hypothesis lt_asym : forall a b, lt a b = true -> lt b a = false.
Hypothesis heap_le_trans : forall a b c, heap_le lt a b -> heap_le lt b c -> heap_le lt a c.

Lemma heap_le_refl a : heap_le lt a a.
Proof.
  unfold heap_le. destruct (lt a a) eqn:E; [|done].
  by rewrite (lt_asym _ _ E) in E.
Qed.

Lemma lt_heap_le a b : lt a b = true -> heap_le lt a b.
Proof. apply lt_asym. Qed.

Lemma parent_of_div pos : parent_of pos = (pos - 1) / 2.
Proof. unfold parent_of. by rewrite Nat.shiftr_div_pow2. Qed.

Lemma parent_of_children c p :
  0 < c -> parent_of c = p <-> c = 2 * p + 1 \/ c = 2 * p + 2.
Proof.
  intros Hc. rewrite parent_of_div. split.
  - intros <-. pose proof (Nat.div_mod_eq (c - 1) 2).
    pose proof (Nat.mod_upper_bound (c - 1) 2). lia.
  - intros [->| ->].
    + replace (2 * p + 1 - 1) with (p * 2) by lia. apply Nat.div_mul. lia.
    + replace (2 * p + 2 - 1) with (1 + p * 2) by lia.
      rewrite Nat.div_add by lia. simpl. lia.
Qed.

Lemma ordered_off_insert heap pos x :
  ordered_off lt heap pos -> ordered_off lt (<[pos:=x]> heap) pos.
Proof.
  intros [Hedges Hgrand]. split.
  - intros i y p Hi Hne Hpne. rewrite !list_lookup_insert_ne by done.
    by apply Hedges.
  - intros c y g Hpos Hc Hpc.
    pose proof (parent_of_lt pos Hpos).
    assert (c <> pos) by (apply parent_of_lt in Hc; lia).
    rewrite !list_lookup_insert_ne by lia. by apply Hgrand.
Qed.

(** Filling the hole with an element that fits gives a heap. *)
Lemma fill_hole heap pos x :
  pos < length heap ->
  ordered_off lt heap pos -> below_children lt heap pos x ->
  (0 < pos -> forall p, heap !! parent_of pos = Some p -> heap_le lt p x) ->
  heap_ordered lt (<[pos:=x]> heap).
Proof.
  intros Hlen [Hedges _] Hbelow Habove i y p Hi Hy Hp.
  destruct (decide (i = pos)) as [->|Hne].
  - rewrite list_lookup_insert_eq in Hy by done. injection Hy as <-.
    pose proof (parent_of_lt pos Hi).
    rewrite list_lookup_insert_ne in Hp by lia. by apply Habove.
  - rewrite list_lookup_insert_ne in Hy by done.
    destruct (decide (parent_of i = pos)) as [Hpar|Hpar].
    + rewrite Hpar, list_lookup_insert_eq in Hp by done. injection Hp as <-.
      by eapply Hbelow.
    + rewrite list_lookup_insert_ne in Hp by done. by eapply Hedges.
Qed.

Lemma siftdown_loop_order heap startpos pos newitem :
  forall heap' pos',
    startpos = 0 -> pos < length heap ->
    ordered_off lt heap pos -> below_children lt heap pos newitem ->
    siftdown_loop lt heap startpos pos newitem = Ok (heap', pos') ->
    heap_ordered lt (<[pos':=newitem]> heap').
Proof.
  funelim (siftdown_loop lt heap startpos pos newitem);
    intros heap1 pos1 Hstart Hlen Hoff Hbelow Hrun; try done.
  - injection Hrun as <- <-. apply fill_hole; try done. lia.
  - injection Hrun as <- <-. apply fill_hole; try done.
    intros _ p Hp. apply item_lookup in Heq0. rewrite Heq0 in Hp.
    injection Hp as <-. exact Heq.
  - clear Heqcall.
    assert (Hpos : 0 < pos) by lia.
    pose proof (parent_of_lt pos Hpos) as Hpar.
    rewrite setitem_in_range in Heq by done. injection Heq as <-.
    apply item_lookup in Heq1. rename Heq0 into Hlt.
    destruct Hoff as [Hedges Hgrand].
    assert (Hparent_le : forall g, 0 < parent_of pos ->
              heap !! parent_of (parent_of pos) = Some g -> heap_le lt g parent).
    { intros g Hpp Hg. pose proof (parent_of_lt _ Hpp).
      apply (Hedges (parent_of pos) parent g Hpp); [lia | lia | done | done]. }
    assert (Hchild : forall c y, 0 < c -> c <> pos -> parent_of c = parent_of pos ->
              heap !! c = Some y -> heap_le lt parent y).
    { intros c y Hc Hne Hpc Hy.
      apply (Hedges c y parent Hc Hne); [lia | done | by rewrite Hpc]. }
    eapply H; try done.
    + rewrite length_insert. lia.
    + split.
      * intros i x p Hi Hne Hpne Hx Hp.
        assert (i <> pos) by (intros ->; done).
        rewrite list_lookup_insert_ne in Hx by done.
        destruct (decide (parent_of i = pos)) as [Hpi|Hpi].
        -- rewrite Hpi, list_lookup_insert_eq in Hp by done. injection Hp as <-.
           eapply Hgrand; try done.
        -- rewrite list_lookup_insert_ne in Hp by done.
           by eapply Hedges.
      * intros c x g Hpp Hc Hpc Hx Hg.
        pose proof (parent_of_lt _ Hpp).
        rewrite list_lookup_insert_ne in Hg by lia.
        destruct (decide (c = pos)) as [->|Hne].
        -- rewrite list_lookup_insert_eq in Hx by done. injection Hx as <-.
           by apply Hparent_le.
        -- rewrite list_lookup_insert_ne in Hx by done.
           eapply heap_le_trans; [by apply Hparent_le|]. by eapply Hchild.
    + intros c y Hc Hpc Hy.
      destruct (decide (c = pos)) as [->|Hne].
      * rewrite list_lookup_insert_eq in Hy by done. injection Hy as <-.
        by apply lt_heap_le.
      * rewrite list_lookup_insert_ne in Hy by done.
        eapply heap_le_trans; [by apply lt_heap_le|]. by eapply Hchild.
Qed.

Lemma siftdown_order heap pos :
  forall heap',
    pos < length heap -> ordered_off lt heap pos ->
    (forall x, heap !! pos = Some x -> below_children lt heap pos x) ->
    siftdown lt heap 0 pos = Ok heap' ->
    heap_ordered lt heap'.
Proof.
  intros heap' Hpos Hoff Hbelow. unfold siftdown.
  destruct (item_in_range heap pos Hpos) as (newitem & -> & Hnew). simpl.
  destruct (siftdown_loop_spec lt heap 0 pos newitem Hpos)
    as (heap1 & pos1 & Hrun & Hlt & _ & _).
  rewrite Hrun. simpl. rewrite setitem_in_range by done. intros [= <-].
  apply (siftdown_loop_order heap 0 pos newitem heap1 pos1);
    [done | done | done | by apply Hbelow | exact Hrun].
Qed.

Lemma siftup_loop_order heap endpos pos :
  forall heap' pos',
    endpos = length heap -> pos < endpos ->
    ordered_off lt heap pos ->
    siftup_loop lt heap endpos pos = Ok (heap', pos') ->
    ordered_off lt heap' pos' /\ length heap' <= 2 * pos' + 1.
Proof.
  funelim (siftup_loop lt heap endpos pos);
    intros heap1 pos1 Hend Hpos Hoff Hrun; try done.
  - injection Hrun as <- <-. split; [done | lia].
  - clear Heqcall Heq2.
    assert (Hpick : pos < pick_child (2 * pos + 1) use_right < length heap /\
                    parent_of (pick_child (2 * pos + 1) use_right) = pos /\
                    forall s y, s <> pick_child (2 * pos + 1) use_right -> 0 < s ->
                                parent_of s = pos -> heap !! s = Some y ->
                                heap_le lt child y).
    { apply item_lookup in Heq0.
      unfold right_is_smaller in Heq1.
      destruct (decide (2 * pos + 1 + 1 < endpos)) as [Hright|Hright].
      - destruct (item_in_range heap (2 * pos + 1) ltac:(lia)) as (lv & Hl & Hl').
        destruct (item_in_range heap (2 * pos + 1 + 1) ltac:(lia)) as (rv & Hr & Hr').
        rewrite Hl in Heq1. cbn [rbind] in Heq1. rewrite Hr in Heq1.
        cbn [rbind] in Heq1. injection Heq1 as <-.
        destruct (lt lv rv) eqn:Hcmp; cbn [negb pick_child] in *.
        + rewrite Heq0 in Hl'. injection Hl' as ->.
          split; [lia|]. split; [apply parent_of_children; lia|].
          intros s y Hs Hs0 Hps Hy.
          apply parent_of_children in Hps as [->| ->]; [done| |done].
          replace (2 * pos + 2) with (2 * pos + 1 + 1) in Hy by lia.
          rewrite Hr' in Hy. injection Hy as <-. by apply lt_heap_le.
        + rewrite Heq0 in Hr'. injection Hr' as ->.
          split; [lia|]. split; [apply parent_of_children; lia|].
          intros s y Hs Hs0 Hps Hy.
          apply parent_of_children in Hps as [->| ->]; [|lia|done].
          rewrite Hl' in Hy. injection Hy as <-. exact Hcmp.
      - injection Heq1 as <-. cbn [pick_child] in *.
        split; [lia|]. split; [apply parent_of_children; lia|].
        intros s y Hs Hs0 Hps Hy.
        apply parent_of_children in Hps as [->| ->]; [done| |done].
        apply lookup_lt_Some in Hy. lia. }
    destruct Hpick as (Hrange & Hcpar & Hsibling).
    set (cpos := pick_child (2 * pos + 1) use_right) in *.
    rewrite setitem_in_range in Heq by lia. injection Heq as <-.
    apply item_lookup in Heq0.
    destruct Hoff as [Hedges Hgrand].
    eapply H; try done.
    + by rewrite length_insert.
    + lia.
    + split.
      * intros i x p Hi Hne Hpne Hx Hp.
        destruct (decide (i = pos)) as [->|Hipos].
        -- rewrite list_lookup_insert_eq in Hx by lia. injection Hx as <-.
           pose proof (parent_of_lt pos Hi).
           rewrite list_lookup_insert_ne in Hp by lia.
           apply (Hgrand cpos child p Hi); [lia | done | done | done].
        -- rewrite list_lookup_insert_ne in Hx by done.
           destruct (decide (parent_of i = pos)) as [Hpi|Hpi].
           ++ rewrite Hpi, list_lookup_insert_eq in Hp by lia.
              injection Hp as <-. exact (Hsibling i x Hne Hi Hpi Hx).
           ++ rewrite list_lookup_insert_ne in Hp by done.
              exact (Hedges i x p Hi Hipos Hpi Hx Hp).
      * intros c x g _ Hc Hpc Hx Hg.
        rewrite Hcpar, list_lookup_insert_eq in Hg by lia. injection Hg as <-.
        pose proof (parent_of_lt c Hc).
        rewrite list_lookup_insert_ne in Hx by lia.
        apply (Hedges c x child Hc); [lia | lia | done | by rewrite Hpc].
Qed.

Lemma siftup_order heap pos :
  forall heap',
    pos < length heap -> ordered_off lt heap pos ->
    siftup lt heap pos = Ok heap' ->
    pos = 0 ->
    heap_ordered lt heap'.
Proof.
  intros heap' Hpos Hoff Hrun ->. unfold siftup in Hrun.
  destruct (item_in_range heap 0 Hpos) as (newitem & Hitem & Hnew).
  rewrite Hitem in Hrun. simpl in Hrun.
  destruct (siftup_loop_spec lt heap (length heap) 0 newitem eq_refl Hpos)
    as (heap1 & pos1 & Hloop & Hlt & Hlen & _).
  rewrite Hloop in Hrun. simpl in Hrun.
  rewrite setitem_in_range in Hrun by lia. simpl in Hrun.
  destruct (siftup_loop_order heap (length heap) 0 heap1 pos1 eq_refl Hpos Hoff Hloop)
    as (Hoff1 & Hleaf).
  eapply siftdown_order; [| |  |exact Hrun].
  - rewrite length_insert. lia.
  - by apply ordered_off_insert.
  - intros x _ c y Hc Hpc Hy.
    apply parent_of_children in Hpc; [|done].
    apply lookup_lt_Some in Hy. rewrite length_insert in Hy. lia.
Qed.

Lemma heap_ordered_nil : heap_ordered lt [].
Proof. intros i x p _ Hx. done. Qed.

Lemma heappush_order heap x :
  forall heap',
    heap_ordered lt heap -> heappush lt heap x = Ok heap' -> heap_ordered lt heap'.
Proof.
  intros heap' Hheap. unfold heappush. rewrite length_app. simpl.
  replace (length heap + 1 - 1) with (length heap) by lia.
  apply siftdown_order.
  - rewrite length_app. simpl. lia.
  - split.
    + intros i y p Hi Hne Hpne Hy Hp.
      assert (i < length heap).
      { apply lookup_lt_Some in Hy. rewrite length_app in Hy. simpl in Hy. lia. }
      pose proof (parent_of_lt i Hi).
      rewrite lookup_app_l in Hy, Hp by lia. by eapply Hheap.
    + intros c y g _ Hc Hpc Hy.
      apply parent_of_children in Hpc; [|done].
      apply lookup_lt_Some in Hy. rewrite length_app in Hy. simpl in Hy. lia.
  - intros y _ c z Hc Hpc Hz.
    apply parent_of_children in Hpc; [|done].
    apply lookup_lt_Some in Hz. rewrite length_app in Hz. simpl in Hz. lia.
Qed.

(** The root of a heap is not above any element. *)
Lemma heap_root_least heap r :
  heap_ordered lt heap -> heap !! 0 = Some r ->
  forall i x, heap !! i = Some x -> heap_le lt r x.
Proof.
  intros Hheap Hroot i. induction (lt_wf i) as [i _ IH]. intros x Hx.
  destruct (decide (i = 0)) as [->|Hi].
  - rewrite Hroot in Hx. injection Hx as <-. apply heap_le_refl.
  - assert (Hpos : 0 < i) by lia. pose proof (parent_of_lt i Hpos) as Hpar.
    destruct (lookup_lt_is_Some_2 heap (parent_of i)) as [p Hp].
    { apply lookup_lt_Some in Hx. lia. }
    eapply heap_le_trans; [by apply (IH (parent_of i) Hpar p)|].
    by eapply Hheap.
Qed.

Lemma heappop_order heap x heap' :
  heap_ordered lt heap -> heappop lt heap = Ok (x, heap') ->
  heap_ordered lt heap' /\ Forall (heap_le lt x) heap'.
Proof.
  intros Hheap Hpop.
  destruct (decide (heap = [])) as [->|Hne]; [done|].
  destruct (heappop_spec lt heap Hne) as (x' & heap2 & Hpop' & _ & Hperm).
  rewrite Hpop in Hpop'. injection Hpop' as <- <-.
  destruct (exists_last Hne) as (front & lastelt & ->).
  unfold heappop in Hpop. rewrite list_pop_snoc in Hpop. simpl in Hpop.
  destruct front as [|returnitem rest].
  { injection Hpop as <- <-. split; [apply heap_ordered_nil | constructor]. }
  simpl in Hpop. unfold setitem in Hpop. simpl in Hpop.
  destruct (siftup lt (lastelt :: rest) 0) as [heap1|e] eqn:Hsift; [|done].
  simpl in Hpop. injection Hpop as <- <-.
  split.
  - eapply (siftup_order (lastelt :: rest) 0); [simpl; lia | | exact Hsift | done].
    split; [|intros; lia].
    intros i y p Hi _ Hpne Hy Hp.
    assert (0 < parent_of i) by lia.
    assert (Hlen : i < length (returnitem :: rest)).
    { apply lookup_lt_Some in Hy. simpl in *. lia. }
    pose proof (parent_of_lt i Hi).
    apply (Hheap i y p Hi).
    + rewrite lookup_app_l by done.
      destruct i; [lia|]. exact Hy.
    + rewrite lookup_app_l by lia.
      destruct (parent_of i); [lia|]. exact Hp.
  - apply Forall_forall. intros y Hy.
    assert (Hin : y ∈ (returnitem :: rest) ++ [lastelt]).
    { rewrite <- Hperm. by apply list_elem_of_further. }
    apply list_elem_of_lookup in Hin as [i Hi].
    by eapply (heap_root_least _ returnitem Hheap).
Qed.

End HeapqOrder.

(** ** Numbers *)

Lemma Qltb_lt (x y : Q) : Qltb x y = true <-> (x < y)%Q.
Proof.
  unfold Qltb. rewrite negb_true_iff, <- not_true_iff_false, Qle_bool_iff.
  split; [apply Qnot_le_lt | apply Qlt_not_le].
Qed.

Lemma Qltb_ge (x y : Q) : Qltb x y = false <-> (y <= x)%Q.
Proof. unfold Qltb. by rewrite negb_false_iff, Qle_bool_iff. Qed.


(** Python's [min] of two numbers is the mathematical minimum. *)
Lemma min_Qmin (x y : Q) : (Py.min x y == Qmin x y)%Q.
Proof.
  unfold Py.min. destruct (Qltb y x) eqn:E.
  - apply Qltb_lt in E. symmetry. apply Q.min_r. by apply Qlt_le_weak.
  - apply Qltb_ge in E. symmetry. by apply Q.min_l.
Qed.

Lemma min_one (x : Q) : (Py.min x 1.0 == Qmin x 1)%Q.
Proof.
  rewrite min_Qmin.
  destruct (Q.min_spec x 1.0) as [[H ->]|[H ->]];
    destruct (Q.min_spec x 1) as [[H' ->]|[H' ->]]; lra.
Qed.

Lemma min_le_r (x y : Q) : (Py.min x y <= y)%Q.
Proof. rewrite min_Qmin. apply Q.le_min_r. Qed.

Lemma div_nonzero (x y : Q) : ~ (y == 0)%Q -> Py.div x y = Ok (x / y)%Q.
Proof.
  intros Hy. unfold Py.div. destruct (Qeq_bool y 0) eqn:E; [|done].
  by apply Qeq_bool_iff in E.
Qed.

Lemma inject_Z_nonzero (z : Z) : z <> 0%Z -> ~ (inject_Z z == 0)%Q.
Proof. intros Hz H. apply Hz. unfold Qeq in H. simpl in H. lia. Qed.

(** ** Priority calculator *)







(** ** Skill extractor *)

Lemma count_in_bounds keywords text :
  (0 <= count_in keywords text <= Z.of_nat (length keywords))%Z.
Proof.
  unfold count_in. split; [lia|].
  apply inj_le. induction keywords as [|k ks IH]; simpl; [lia|].
  destruct (str_in k text); simpl; lia.
Qed.

Lemma dict_set_new {V} (k : string) (v : V) (d : dict V) :
  k ∉ keys d -> dict_set k v d = d ++ [(k, v)].
Proof.
  induction d as [|[k' v'] d IH]; simpl; [done|].
  rewrite not_elem_of_cons. intros [Hne Hnot].
  apply String.eqb_neq in Hne. rewrite Hne. by rewrite IH.
Qed.

(** The ratio of a positive count is defined, and lies in (0, 1]. *)
Lemma importance_defined keywords text :
  (0 < count_in keywords text)%Z ->
  let ratio := (inject_Z (count_in keywords text)
                / inject_Z (Z.of_nat (length keywords)))%Q in
  Py.div (inject_Z (count_in keywords text))
         (inject_Z (Z.of_nat (length keywords))) = Ok ratio /\
  (0 < ratio <= 1)%Q /\
  (Py.min ratio 1.0 == spec_importance (count_in keywords text)
                         (Z.of_nat (length keywords)))%Q.
Proof.
  intros Hpos ratio. pose proof (count_in_bounds keywords text) as [_ Hle].
  assert (Hlen : (0 < Z.of_nat (length keywords))%Z) by lia.
  split; [apply div_nonzero, inject_Z_nonzero; lia|].
  split; [|apply min_one].
  assert (HlenQ : (0 < inject_Z (Z.of_nat (length keywords)))%Q)
    by (change 0%Q with (inject_Z 0); by rewrite <- Zlt_Qlt).
  assert (HposQ : (0 < inject_Z (count_in keywords text))%Q)
    by (change 0%Q with (inject_Z 0); by rewrite <- Zlt_Qlt).
  assert (HleQ : (inject_Z (count_in keywords text)
                  <= inject_Z (Z.of_nat (length keywords)))%Q)
    by (by rewrite <- Zle_Qle).
  unfold ratio. split.
  - apply Qlt_shift_div_l; [done|]. by rewrite Qmult_0_l.
  - apply Qle_shift_div_r; [done|]. by rewrite Qmult_1_l.
Qed.

Lemma scan_keywords_spec lexicon text :
  forall acc acc',
    NoDup (keys lexicon) ->
    (forall k, k ∈ keys lexicon -> k ∉ keys acc) ->
    Forall2 same_entry acc acc' ->
    exists rs,
      scan_keywords lexicon text acc = Ok rs /\
      Forall2 same_entry rs (acc' ++ spec_required_skills lexicon text).
Proof.
  induction lexicon as [|[skill keywords] lexicon IH];
    intros acc acc' Hnd Hfresh Hacc.
  - exists acc. split; [done|]. simpl. by rewrite app_nil_r.
  - simpl in Hnd. apply NoDup_cons in Hnd as [Hskill Hnd].
    cbn [scan_keywords spec_required_skills omap list_omap].
    destruct (0 <? count_in keywords text)%Z eqn:Hcount.
    + apply Z.ltb_lt in Hcount.
      destruct (importance_defined keywords text Hcount) as (-> & _ & Himp).
      cbn [rbind].
      rewrite dict_set_new by (apply Hfresh; apply list_elem_of_here).
      destruct (IH (acc ++ [(skill,
                    Py.min (inject_Z (count_in keywords text)
                            / inject_Z (Z.of_nat (length keywords))) 1.0)])
                   (acc' ++ [(skill,
                    spec_importance (count_in keywords text)
                      (Z.of_nat (length keywords)))]))
        as (rs & Hrun & Hrs); [done| | |].
      { intros k Hk. unfold keys. rewrite fmap_app, elem_of_app.
        intros [Hin|Hin].
        - by apply (Hfresh k); [apply list_elem_of_further|].
        - apply list_elem_of_singleton in Hin. simpl in Hin. by subst. }
      { apply Forall2_app; [done|]. constructor; [by split | constructor]. }
      exists rs. split; [done|].
      by rewrite <- app_assoc in Hrs.
    + apply (IH acc acc' Hnd); [|done].
      intros k Hk. apply Hfresh. by apply list_elem_of_further.
Qed.


Lemma skill_keywords_NoDup : NoDup (keys skill_keywords).
Proof. apply (bool_decide_unpack _). by vm_compute. Qed.

Lemma same_engine_refl self : same_engine self self.
Proof. by repeat split. Qed.

Lemma same_engine_trans a b c : same_engine a b -> same_engine b c -> same_engine a c.
Proof.
  intros (? & ? & ? & ? & ? & ?) (? & ? & ? & ? & ? & ?).
  repeat split; congruence.
Qed.

Lemma extract_hit ticket self cached :
  dict_get (ticket_id ticket) (skill_requirements_cache self) = Some cached ->
  extract_required_skills ticket self = Ok (cached, self).
Proof.
  intros Hhit. unfold extract_required_skills, bind, get. by rewrite Hhit.
Qed.

Lemma extract_miss ticket self :
  dict_get (ticket_id ticket) (skill_requirements_cache self) = None ->
  exists rs,
    scan_keywords skill_keywords (combined_text ticket) [] = Ok rs /\
    Forall2 same_entry rs
      (spec_required_skills skill_keywords (combined_text ticket)) /\
    extract_required_skills ticket self =
      Ok (rs, set_cache (dict_set (ticket_id ticket) rs
                           (skill_requirements_cache self)) (note_scan self)).
Proof.
  intros Hmiss.
  destruct (scan_keywords_spec skill_keywords (combined_text ticket) [] [])
    as (rs & Hscan & Hrs).
  { apply skill_keywords_NoDup. }
  { intros k _. apply not_elem_of_nil. }
  { constructor. }
  rewrite app_nil_l in Hrs.
  exists rs. split; [exact Hscan|]. split; [exact Hrs|].
  unfold extract_required_skills, bind, get, lift, put, ret.
  rewrite Hmiss, Hscan. reflexivity.
Qed.

(** A call always returns, and leaves its result in the cache. *)
Lemma extract_total ticket self :
  exists rs self',
    extract_required_skills ticket self = Ok (rs, self') /\
    dict_get (ticket_id ticket) (skill_requirements_cache self') = Some rs /\
    same_engine self self'.
Proof.
  destruct (dict_get (ticket_id ticket) (skill_requirements_cache self))
    as [cached|] eqn:Hcache.
  - exists cached, self. split; [by apply extract_hit|].
    split; [done | apply same_engine_refl].
  - destruct (extract_miss ticket self Hcache) as (rs & _ & _ & Hrun).
    eexists _, _. split; [exact Hrun|]. split.
    + apply dict_get_set_eq.
    + by repeat split.
Qed.



Lemma NoDup_keys_functional {V} (d : dict V) k v v' :
  NoDup (keys d) -> (k, v) ∈ d -> (k, v') ∈ d -> v = v'.
Proof.
  induction d as [|[k0 v0] d IH]; simpl; [by intros _ ?%elem_of_nil|].
  intros [Hk Hnd]%NoDup_cons [[= -> ->]|Hin]%elem_of_cons
         [[= Heq]|Hin']%elem_of_cons; try done.
  - exfalso. apply Hk. unfold keys. apply list_elem_of_fmap. by exists (k0, v').
  - subst. exfalso. apply Hk. unfold keys. apply list_elem_of_fmap. by exists (k0, v).
  - by apply IH.
Qed.




(** C10. The cache is keyed by the ticket identifier alone: after a call on
    one record, a call on any record with the same identifier returns the
    first call's mapping and changes nothing, whatever its title and
    description are. *)
Theorem C10_cache_keyed_by_ticket_id :
  forall (first second : Ticket) (self : System),
    ticket_id first = ticket_id second ->
    exists rs self',
      extract_required_skills first self = Ok (rs, self') /\
      extract_required_skills second self' = Ok (rs, self').
Proof.
  intros first second self Hid.
  destruct (extract_total first self) as (rs & self' & Hrun & Hcached & _).
  exists rs, self'. split; [done|].
  apply extract_hit. by rewrite <- Hid.
Qed.

(** ** Agent scorer *)

Lemma skill_match_score_total agent rs :
  exists q, skill_match_score_of agent rs = Ok q.
Proof.
  unfold skill_match_score_of. destruct rs as [|entry rs]; [by eexists|].
  eexists. apply div_nonzero, inject_Z_nonzero. simpl length. lia.
Qed.

Lemma workload_score_total max_load agent :
  max_load <> 0%Z ->
  workload_score_of max_load agent =
    Ok ((1 - inject_Z (current_load agent) / inject_Z max_load) * 10)%Q.
Proof.
  intros Hmax. unfold workload_score_of.
  by rewrite div_nonzero by by apply inject_Z_nonzero.
Qed.

Lemma performance_score_total history_table agent :
  exists q, performance_score_of history_table agent = Ok q.
Proof.
  unfold performance_score_of.
  destruct (dict_get (agent_id agent) history_table) as [history|]; [|by eexists].
  destruct (0 <? total history)%Z eqn:Htotal; [|by eexists].
  apply Z.ltb_lt in Htotal.
  rewrite div_nonzero by (apply inject_Z_nonzero; lia). by eexists.
Qed.

Lemma weighted_sum_total cfg history_table agent rs ticket_priority :
  max_load_per_agent cfg <> 0%Z ->
  exists skill_match_score performance_score,
    skill_match_score_of agent rs = Ok skill_match_score /\
    performance_score_of history_table agent = Ok performance_score /\
    weighted_sum cfg history_table agent rs ticket_priority =
      Ok (skill_match_score * skill_match_weight cfg +
          experience_score_of agent * experience_weight cfg +
          (1 - inject_Z (current_load agent) / inject_Z (max_load_per_agent cfg))
          * 10 * workload_weight cfg +
          priority_capability_of agent ticket_priority * priority_weight cfg +
          performance_score * 0.1)%Q.
Proof.
  intros Hmax.
  destruct (skill_match_score_total agent rs) as (s & Hs).
  destruct (performance_score_total history_table agent) as (p & Hp).
  exists s, p. split; [done|]. split; [done|].
  unfold weighted_sum. rewrite Hs, workload_score_total, Hp by done. done.
Qed.

Lemma calculate_agent_score_spec agent ticket ticket_priority self :
  max_load_per_agent (config self) <> 0%Z ->
  exists rs self' base,
    extract_required_skills ticket self = Ok (rs, self') /\
    dict_get (ticket_id ticket) (skill_requirements_cache self') = Some rs /\
    same_engine self self' /\
    weighted_sum (config self) (agent_performance_history self) agent rs
      ticket_priority = Ok base /\
    calculate_agent_score agent ticket ticket_priority self =
      Ok (apply_penalties (config self) agent base, self').
Proof.
  intros Hmax.
  destruct (extract_total ticket self) as (rs & self' & Hrun & Hcached & Hsame).
  destruct (weighted_sum_total (config self) (agent_performance_history self)
              agent rs ticket_priority Hmax) as (s & p & _ & _ & Hsum).
  exists rs, self'. eexists. split; [done|]. split; [done|]. split; [done|].
  split; [exact Hsum|].
  destruct Hsame as (_ & _ & _ & Hcfg & Hhist & _).
  unfold calculate_agent_score, bind, get, lift, ret.
  rewrite Hrun, Hcfg, Hhist, Hsum. done.
Qed.

Lemma apply_penalties_factors cfg agent base :
  (apply_penalties cfg agent base ==
   base
   * (if String.eqb (availability_status agent) "Available" then 1 else 0.1)
   * (if (max_load_per_agent cfg <=? current_load agent)%Z then 0.01 else 1))%Q.
Proof.
  unfold apply_penalties.
  destruct (String.eqb (availability_status agent) "Available");
    destruct (max_load_per_agent cfg <=? current_load agent)%Z; simpl; ring.
Qed.

(** C6. The score is the weighted sum times 0.1 for an agent that is not
    "Available", times 0.01 for an agent at or over the load limit; an agent
    in both conditions scores 0.001 times the weighted sum. *)
Theorem C6_penalties_multiply_weighted_sum :
  forall (agent : Agent) (ticket : Ticket) (ticket_priority : TicketPriority)
         (self : System),
    max_load_per_agent (config self) <> 0%Z ->
    exists rs self' base score,
      extract_required_skills ticket self = Ok (rs, self') /\
      weighted_sum (config self) (agent_performance_history self) agent rs
        ticket_priority = Ok base /\
      calculate_agent_score agent ticket ticket_priority self
        = Ok (score, self') /\
      (score ==
       base
       * (if String.eqb (availability_status agent) "Available" then 1 else 0.1)
       * (if (max_load_per_agent (config self) <=? current_load agent)%Z
          then 0.01 else 1))%Q /\
      (availability_status agent <> "Available" ->
       (max_load_per_agent (config self) <= current_load agent)%Z ->
       (score == 0.001 * base)%Q).
Proof.
  intros agent ticket ticket_priority self Hmax.
  destruct (calculate_agent_score_spec agent ticket ticket_priority self Hmax)
    as (rs & self' & base & Hrun & _ & _ & Hsum & Hscore).
  exists rs, self', base, (apply_penalties (config self) agent base).
  split; [done|]. split; [done|]. split; [done|].
  split; [apply apply_penalties_factors|].
  intros Hstatus Hload. rewrite apply_penalties_factors.
  apply String.eqb_neq in Hstatus. apply Z.leb_le in Hload.
  rewrite Hstatus, Hload. ring.
Qed.

(** C7. With no required skill the skill-match score is the constant 5; the
    division by the number of required skills happens only for a non-empty
    mapping, so this score is defined for every agent and every mapping; and
    the agent score of a ticket whose extracted mapping is empty is the
    penalised weighted sum with 5 as its skill term. *)
Theorem C7_no_required_skills_neutral_score :
  forall (agent : Agent) (ticket : Ticket) (ticket_priority : TicketPriority)
         (self self' : System),
    max_load_per_agent (config self) <> 0%Z ->
    extract_required_skills ticket self = Ok ([], self') ->
    skill_match_score_of agent [] = Ok 5%Q /\
    (forall (other : Agent) (rs : dict Q),
       exists q, skill_match_score_of other rs = Ok q) /\
    exists performance_score,
      performance_score_of (agent_performance_history self) agent
        = Ok performance_score /\
      calculate_agent_score agent ticket ticket_priority self =
        Ok (apply_penalties (config self) agent
              (5 * skill_match_weight (config self) +
               experience_score_of agent * experience_weight (config self) +
               (1 - inject_Z (current_load agent)
                    / inject_Z (max_load_per_agent (config self)))
               * 10 * workload_weight (config self) +
               priority_capability_of agent ticket_priority
               * priority_weight (config self) +
               performance_score * 0.1)%Q, self').
Proof.
  intros agent ticket ticket_priority self self' Hmax Hrun.
  split; [done|]. split; [intros; apply skill_match_score_total|].
  destruct (calculate_agent_score_spec agent ticket ticket_priority self Hmax)
    as (rs & self2 & base & Hrun' & _ & _ & Hsum & Hscore).
  rewrite Hrun in Hrun'. injection Hrun' as <- <-.
  destruct (weighted_sum_total (config self) (agent_performance_history self)
              agent [] ticket_priority Hmax) as (s & p & Hs & Hp & Hsum').
  injection Hs as <-. exists p. split; [done|].
  rewrite Hscore. rewrite Hsum in Hsum'. by injection Hsum' as ->.
Qed.

(** ** Assignment loop *)

(** The order of the queue on priority records: a record is not above
    another when its score is at least the other's. *)
Lemma tp_le_score a b :
  heap_le tp_lt a b <-> (priority_score b <= priority_score a)%Q.
Proof. unfold heap_le, tp_lt. apply Qltb_ge. Qed.

Lemma tp_lt_asym a b : tp_lt a b = true -> tp_lt b a = false.
Proof.
  unfold tp_lt. rewrite Qltb_lt, Qltb_ge. apply Qlt_le_weak.
Qed.

Lemma tp_le_trans a b c :
  heap_le tp_lt a b -> heap_le tp_lt b c -> heap_le tp_lt a c.
Proof. rewrite !tp_le_score. intros Hab Hbc. by apply (Qle_trans _ _ _ Hbc). Qed.

Lemma pop_order_elements n :
  forall heap x, x ∈ pop_order n heap -> x ∈ heap.
Proof.
  induction n as [|n IH]; intros heap x; [by intros ?%elem_of_nil|].
  destruct heap as [|y heap]; [by intros ?%elem_of_nil|].
  cbn [pop_order].
  destruct (heappop_spec tp_lt (y :: heap)) as (tp & rest & Hpop & _ & Hperm);
    [done|].
  rewrite Hpop, <- Hperm. intros [->|Hin]%elem_of_cons.
  - apply list_elem_of_here.
  - apply list_elem_of_further. by apply IH.
Qed.

(** Records leave an ordered queue by non-increasing score. *)
Lemma pop_order_sorted n :
  forall heap,
    heap_ordered tp_lt heap ->
    StronglySorted (fun a b => (priority_score b <= priority_score a)%Q)
      (pop_order n heap).
Proof.
  induction n as [|n IH]; intros heap Hheap; [constructor|].
  destruct heap as [|y heap]; [constructor|].
  cbn [pop_order].
  destruct (heappop_spec tp_lt (y :: heap)) as (tp & rest & Hpop & _ & _);
    [done|].
  rewrite Hpop.
  destruct (heappop_order tp_lt tp_lt_asym tp_le_trans _ _ _ Hheap Hpop)
    as (Hrest & Hleast).
  constructor; [by apply IH|].
  apply Forall_forall. intros x Hx%pop_order_elements.
  rewrite Forall_forall in Hleast. by apply tp_le_score, Hleast.
Qed.

Section LoopFacts.
Variable clock : nat -> Q.

Lemma scan_step_spec ticket tp scan key agent self :
  max_load_per_agent (config self) <> 0%Z ->
  exists score self',
    calculate_agent_score agent ticket tp self = Ok (score, self') /\
    same_engine self self' /\
    scan_step ticket tp scan (key, agent) self =
      Ok (if Qltb (best_score scan) score
          then mkScan (Some key) score
                 (dict_set key score (agent_scores scan)) (Some key)
          else mkScan (best_agent_id scan) (best_score scan)
                 (dict_set key score (agent_scores scan)) (Some key), self').
Proof.
  intros Hmax.
  destruct (calculate_agent_score_spec agent ticket tp self Hmax)
    as (rs & self' & base & _ & _ & Hsame & _ & Hscore).
  eexists _, self'. split; [exact Hscore|]. split; [done|].
  unfold scan_step, bind. rewrite Hscore.
  by destruct (Qltb (best_score scan) (apply_penalties (config self) agent base)).
Qed.

Lemma scan_agents_spec ticket tp entries :
  forall scan self,
    max_load_per_agent (config self) <> 0%Z \/ entries = [] ->
    exists scan' self',
      scan_agents entries ticket tp scan self = Ok (scan', self') /\
      same_engine self self' /\
      (best_agent_id scan' = best_agent_id scan \/
       exists k, best_agent_id scan' = Some k /\ k ∈ keys entries) /\
      (entries = [] -> scan' = scan /\ self' = self) /\
      (entries <> [] -> exists k, loop_agent_id scan' = Some k) /\
      (forall k, k ∈ keys entries \/ k ∈ keys (agent_scores scan) ->
                 k ∈ keys (agent_scores scan')).
Proof.
  induction entries as [|[key agent] entries IH]; intros scan self Hcan.
  - exists scan, self. split; [done|]. split; [apply same_engine_refl|].
    split; [by left|]. split; [done|]. split; [done|].
    intros k [?%elem_of_nil|?]; done.
  - destruct Hcan as [Hmax|?]; [|done].
    destruct (scan_step_spec ticket tp scan key agent self Hmax)
      as (score & self1 & _ & Hsame1 & Hstep).
    assert (Hmax1 : max_load_per_agent (config self1) <> 0%Z).
    { destruct Hsame1 as (_ & _ & _ & -> & _). done. }
    cbn [scan_agents]. unfold bind at 1. rewrite Hstep.
    match goal with
    | |- context [scan_agents entries ticket tp ?st self1] =>
        destruct (IH st self1 (or_introl Hmax1))
          as (scan' & self' & Hrun & Hsame & Hbest & _ & _ & Hscores);
        set (scan1 := st) in *
    end.
    exists scan', self'. split; [exact Hrun|].
    split; [by eapply same_engine_trans|].
    assert (Hloop1 : loop_agent_id scan1 = Some key)
      by (unfold scan1; by destruct (Qltb _ _)).
    assert (Hkeys1 : forall k, k = key \/ k ∈ keys (agent_scores scan) ->
                               k ∈ keys (agent_scores scan1)).
    { intros k Hk.
      assert (Hset : k ∈ keys (dict_set key score (agent_scores scan))).
      { destruct Hk as [->|Hk].
        - eapply dict_get_is_key, dict_get_set_eq.
        - destruct (decide (key ∈ keys (agent_scores scan))).
          + by rewrite keys_dict_set_old.
          + rewrite keys_dict_set_new by done. apply elem_of_app. by left. }
      unfold scan1. by destruct (Qltb _ _). }
    split; [|split; [done|split]].
    + destruct Hbest as [Hbest|(k & Hk & Hin)].
      * rewrite Hbest. unfold scan1. destruct (Qltb _ _); simpl; [|by left].
        right. exists key. split; [done | apply list_elem_of_here].
      * right. exists k. split; [done | by apply list_elem_of_further].
    + intros _. destruct entries as [|entry entries'].
      * cbn [scan_agents] in Hrun. injection Hrun as <- _. eauto.
      * destruct (IH scan1 self1 (or_introl Hmax1))
          as (scan2 & self2 & Hrun2 & _ & _ & _ & Hloop & _).
        rewrite Hrun in Hrun2. injection Hrun2 as <- _. by apply Hloop.
    + intros k [[->|Hk]%elem_of_cons|Hk]; apply Hscores.
      * right. apply Hkeys1. by left.
      * by left.
      * right. apply Hkeys1. by right.
Qed.

Lemma record_unassigned_spec ticket tp self :
  exists self' a,
    record_unassigned clock ticket tp self = Ok (tt, self') /\
    assignments self' = assignments self ++ [a] /\
    a_ticket_id a = ticket_id ticket /\
    assigned_agent_id a = None /\
    assigned_agent_name a = "UNASSIGNED" /\
    rationale a = unassigned_rationale /\
    match_details a = None /\
    priority a = urgency_level tp /\
    a_priority_score a = round2 (priority_score tp) /\
    agents self' = agents self /\
    tickets self' = tickets self /\
    config self' = config self /\
    agent_performance_history self' = agent_performance_history self.
Proof.
  unfold record_unassigned, bind, now, get, put.
  eexists _, _. split; [reflexivity|]. by repeat split.
Qed.

Lemma commit_assignment_spec ticket tp scan best agent self :
  dict_get best (agents self) = Some agent ->
  (exists k, loop_agent_id scan = Some k) ->
  exists self' a,
    commit_assignment clock ticket tp scan best self = Ok (tt, self') /\
    assignments self' = assignments self ++ [a] /\
    a_ticket_id a = ticket_id ticket /\
    assigned_agent_id a = Some best /\
    assigned_agent_name a = name agent /\
    priority a = urgency_level tp /\
    a_priority_score a = round2 (priority_score tp) /\
    agents self' = dict_set best (take_ticket ticket tp agent) (agents self) /\
    tickets self' = tickets self /\
    config self' = config self /\
    agent_performance_history self' = agent_performance_history self.
Proof.
  intros Hagent (k & Hloop).
  destruct (extract_total ticket self)
    as (rs & self1 & Hrun & _ & (Hag & Htk & Has & Hcfg & Hhist & _)).
  unfold commit_assignment, bind, get, lift, getitem, now, put.
  rewrite Hagent, Hrun, Hloop.
  eexists _, _. split; [reflexivity|].
  cbn [assignments agents tickets config agent_performance_history
       set_assignments set_agents tick a_ticket_id assigned_agent_id
       assigned_agent_name priority a_priority_score].
  rewrite Hag, Htk, Has, Hcfg, Hhist. by repeat split.
Qed.

Lemma assign_one_spec tp self :
  tickets_keyed self -> can_score self ->
  tp_ticket_id tp ∈ keys (tickets self) ->
  exists self', assign_one clock tp self = Ok (tt, self') /\
                round_effect tp self self'.
Proof.
  intros Hkeyed Hcan Hin.
  destruct (dict_get_key_Some _ _ Hin) as (ticket & Hticket).
  pose proof (Hkeyed _ _ Hticket) as Hid.
  destruct (scan_agents_spec ticket tp (agents self) scan_start self)
    as (scan & self1 & Hscan & (Hag & Htk & Has & Hcfg & Hhist & _)
        & Hbest & _ & Hloop & _).
  { destruct Hcan; [by left | by right]. }
  unfold assign_one, bind, get, lift, getitem. rewrite Hticket, Hscan.
  assert (Hfallback : exists self',
            record_unassigned clock ticket tp self1 = Ok (tt, self') /\
            round_effect tp self self').
  { destruct (record_unassigned_spec ticket tp self1)
      as (self' & a & Hrun & Hlog & Haid & Hnone & Hname & Hwhy & _
          & Hprio & Hscore & Hag' & Htk' & Hcfg' & Hhist').
    exists self'. split; [done|].
    split; [congruence|]. split; [congruence|]. split; [congruence|].
    exists a. split; [congruence|]. split; [congruence|].
    split; [done|]. split; [done|].
    left. repeat split; congruence. }
  destruct (best_agent_id scan) as [best|] eqn:Hchosen; [|exact Hfallback].
  cbn [truthy]. destruct (String.eqb best "") eqn:Hempty; [exact Hfallback|].
  cbn [negb]. apply String.eqb_neq in Hempty.
  destruct Hbest as [Hbest|(k & Hk & Hkin)]; [done|].
  injection Hk as <-.
  destruct (dict_get_key_Some _ _ Hkin) as (agent & Hagent).
  destruct (commit_assignment_spec ticket tp scan best agent self1)
    as (self' & a & Hrun & Hlog & Haid & Hsome & _ & Hprio & Hscore
        & Hag' & Htk' & Hcfg' & Hhist').
  { by rewrite Hag. }
  { apply Hloop. intros Hnil. rewrite Hnil in Hkin. by apply elem_of_nil in Hkin. }
  exists self'. split; [done|].
  split; [congruence|]. split; [congruence|]. split; [congruence|].
  exists a. split; [congruence|]. split; [congruence|].
  split; [done|]. split; [done|].
  right. exists best, agent, ticket. repeat split; try done. congruence.
Qed.

Lemma round_effect_keeps tp self self' :
  round_effect tp self self' ->
  (tickets_keyed self -> tickets_keyed self') /\
  (can_score self -> can_score self') /\
  keys (agents self') = keys (agents self).
Proof.
  intros (Htk & Hcfg & _ & a & _ & _ & _ & _ & Hcase).
  split; [|split].
  - unfold tickets_keyed. by rewrite Htk.
  - unfold can_score. rewrite Hcfg. intros [?|Hnil]; [by left|].
    destruct Hcase as [(_ & _ & _ & ->)|(best & agent & ? & _ & _ & Hget & _)].
    + by right.
    + rewrite Hnil in Hget. done.
  - destruct Hcase as [(_ & _ & _ & ->)|(best & agent & ? & _ & _ & Hget & _ & ->)].
    + done.
    + apply keys_dict_set_old. by eapply dict_get_is_key.
Qed.

Lemma rounds_spec n :
  forall heap self,
    tickets_keyed self -> can_score self ->
    Forall (fun tp => tp_ticket_id tp ∈ keys (tickets self)) heap ->
    exists popped rest self',
      rounds clock n heap self = Ok (rest, self') /\
      rounds_effect popped self self' /\
      popped ++ rest ≡ₚ heap /\
      length popped = Nat.min n (length heap) /\
      popped = pop_order n heap.
Proof.
  induction n as [|n IH]; intros heap self Hkeyed Hcan Hheap.
  - exists [], heap, self. split; [by destruct heap|].
    split; [constructor|]. done.
  - destruct heap as [|x heap].
    { exists [], [], self. split; [done|]. split; [constructor|]. done. }
    destruct (heappop_spec tp_lt (x :: heap)) as (tp & rest & Hpop & Hlen & Hperm);
      [done|].
    assert (Hall : Forall (fun tp => tp_ticket_id tp ∈ keys (tickets self))
                     (tp :: rest)) by (by rewrite Hperm).
    apply Forall_cons in Hall as [Htp Hrest].
    destruct (assign_one_spec tp self Hkeyed Hcan Htp) as (self1 & Hone & Heff).
    destruct (round_effect_keeps _ _ _ Heff) as (Hk1 & Hc1 & _).
    destruct (IH rest self1 (Hk1 Hkeyed) (Hc1 Hcan))
      as (popped & rest' & self' & Hrun & Heffs & Hperm' & Hlen' & Horder).
    { destruct Heff as (-> & _). done. }
    exists (tp :: popped), rest', self'.
    split.
    { cbn [rounds]. unfold bind at 1, lift. rewrite Hpop.
      unfold bind at 1. rewrite Hone. exact Hrun. }
    split; [by econstructor|].
    split; [simpl; by rewrite Hperm', Hperm|].
    split; [simpl in *; rewrite Hlen'; lia|].
    cbn [pop_order]. rewrite Hpop. by rewrite Horder.
Qed.

Lemma drain_as_rounds n :
  forall heap self,
    drain clock n heap self =
    match rounds clock n heap self with
    | Ok ([], self') => Ok (tt, self')
    | Ok (_ :: _, _) => Raise OutOfFuel
    | Raise e => Raise e
    end.
Proof.
  induction n as [|n IH]; intros [|x heap] self; try done.
  cbn [drain rounds]. unfold bind at 1 3, lift.
  destruct (heappop tp_lt (x :: heap)) as [[tp rest]|e]; [|done].
  unfold bind at 1 2. destruct (assign_one clock tp self) as [[[] self1]|e]; [|done].
  apply IH.
Qed.

Lemma enqueue_spec entries :
  forall heap self,
    exists heap' self',
      enqueue clock entries heap self = Ok (heap', self') /\
      same_but_clock self self' /\
      map tp_ticket_id heap' ≡ₚ
        map tp_ticket_id heap ++ map (fun entry => ticket_id (snd entry)) entries /\
      (heap_ordered tp_lt heap -> heap_ordered tp_lt heap').
Proof.
  induction entries as [|[key ticket] entries IH]; intros heap self.
  - exists heap, self. split; [done|]. split; [by repeat split|].
    split; [|done]. simpl. by rewrite app_nil_r.
  - set (priority := calculate_ticket_priority (config self)
                       (clock (clock_reads self)) ticket).
    destruct (heappush_spec tp_lt heap priority) as (heap1 & Hpush & _ & Hperm).
    destruct (IH heap1 (tick self))
      as (heap' & self' & Hrun & Hsame & Hperm' & Hordered).
    exists heap', self'. split.
    { cbn [enqueue]. unfold bind, get, now, lift. fold priority.
      rewrite Hpush. exact Hrun. }
    split.
    { destruct Hsame as (? & ? & ? & ? & ? & ?). by repeat split. }
    split.
    { rewrite Hperm', Hperm. simpl. by rewrite <- Permutation_middle. }
    intros Hheap. apply Hordered.
    eapply heappush_order;
      [apply tp_lt_asym | apply tp_le_trans | exact Hheap | exact Hpush].
Qed.

End LoopFacts.

(** *** The loaded dataset *)

Lemma dict_get_in_NoDup {V} (d : dict V) k v :
  NoDup (keys d) -> (k, v) ∈ d -> dict_get k d = Some v.
Proof.
  intros Hnd Hin. destruct (dict_get k d) as [v'|] eqn:E.
  - f_equal. apply dict_get_Some_in in E.
    by eapply NoDup_keys_functional.
  - apply dict_get_None in E. exfalso. apply E.
    unfold keys. apply list_elem_of_fmap. by exists (k, v).
Qed.

Lemma dict_get_map_values {V W} (f : V -> W) (d : dict V) k :
  dict_get k (map (fun '(key, v) => (key, f v)) d) = f <$> dict_get k d.
Proof.
  induction d as [|[k' v'] d IH]; simpl; [done|].
  by destruct (String.eqb k k').
Qed.

Lemma load_data_tickets_keyed data_agents data_tickets self :
  tickets_keyed (load_data data_agents data_tickets self) /\
  NoDup (keys (tickets (load_data data_agents data_tickets self))) /\
  (forall id, id ∈ keys (tickets (load_data data_agents data_tickets self)) <->
              exists ticket, ticket ∈ data_tickets /\ ticket_id ticket = id) /\
  map (fun entry => ticket_id (snd entry))
      (tickets (load_data data_agents data_tickets self))
  = keys (tickets (load_data data_agents data_tickets self)).
Proof.
  change (tickets (load_data data_agents data_tickets self))
    with (dict_of ticket_id data_tickets).
  unfold tickets_keyed.
  change (tickets (load_data data_agents data_tickets self))
    with (dict_of ticket_id data_tickets).
  destruct (dict_of_spec ticket_id data_tickets) as (Hnd & Hkeys & Hget).
  split; [intros k t Hk; by apply Hget|]. split; [done|]. split; [done|].
  unfold keys. apply map_ext_in. intros [k t] Hin. simpl.
  apply list_elem_of_In in Hin. apply Hget. by apply dict_get_in_NoDup.
Qed.

Lemma load_data_agents data_agents data_tickets self k agent :
  dict_get k (agents (load_data data_agents data_tickets self)) = Some agent ->
  exists row,
    dict_get k (dict_of agent_id data_agents) = Some row /\
    row ∈ data_agents /\ agent = reset_agent row.
Proof.
  change (agents (load_data data_agents data_tickets self))
    with (map (fun '(key, a) => (key, reset_agent a)) (dict_of agent_id data_agents)).
  rewrite dict_get_map_values.
  destruct (dict_get k (dict_of agent_id data_agents)) as [row|] eqn:E; [|done].
  intros [= <-]. exists row. split; [done|]. split; [|done].
  destruct (dict_of_spec agent_id data_agents) as (_ & _ & Hget).
  by destruct (Hget k row E).
Qed.

Lemma load_data_can_score data_agents data_tickets cfg :
  max_load_per_agent cfg <> 0%Z \/ data_agents = [] ->
  can_score (load_data data_agents data_tickets (init cfg)).
Proof. intros [?| ->]; [by left | by right]. Qed.

(** *** What the rounds add up to *)

Lemma rounds_effect_log popped self self' :
  rounds_effect popped self self' ->
  tickets self' = tickets self /\
  config self' = config self /\
  keys (agents self') = keys (agents self) /\
  exists log,
    assignments self' = assignments self ++ log /\
    map a_ticket_id log = map tp_ticket_id popped /\
    map a_priority_score log
      = map (fun tp => round2 (priority_score tp)) popped /\
    Forall (fun a =>
              (assigned_agent_id a = None /\
               assigned_agent_name a = "UNASSIGNED" /\
               rationale a = unassigned_rationale) \/
              (exists best, assigned_agent_id a = Some best /\
                            best ∈ keys (agents self))) log.
Proof.
  induction 1 as [self|tp tps self self1 self2 Hround _ IH].
  - repeat split; try done. exists []. by rewrite app_nil_r.
  - destruct IH as (Htk & Hcfg & Hkeys & log & Hlog & Hids & Hscores & Hkinds).
    destruct (round_effect_keeps _ _ _ Hround) as (_ & _ & Hkeys1).
    destruct Hround as (Htk1 & Hcfg1 & _ & a & Hlog1 & Hid & _ & Hscore & Hcase).
    split; [congruence|]. split; [congruence|]. split; [congruence|].
    exists (a :: log). split.
    { rewrite Hlog, Hlog1, <- app_assoc. done. }
    split; [simpl; congruence|].
    split; [simpl; congruence|].
    constructor.
    + destruct Hcase as [(? & ? & ? & _)|(best & agent & ? & ? & _ & Hget & _)].
      * by left.
      * right. exists best. split; [done|]. by eapply dict_get_is_key.
    + rewrite Hkeys1 in Hkinds. exact Hkinds.
Qed.

Lemma rounds_effect_loads popped self self' :
  rounds_effect popped self self' ->
  forall k agent',
    dict_get k (agents self') = Some agent' ->
    exists agent, dict_get k (agents self) = Some agent /\
                  load_before agent' = load_before agent.
Proof.
  induction 1 as [self|tp tps self self1 self2 Hround _ IH]; [eauto|].
  intros k agent2 Hget2. destruct (IH k agent2 Hget2) as (agent1 & Hget1 & Heq).
  destruct Hround as (_ & _ & _ & a & _ & _ & _ & _ & Hcase).
  destruct Hcase as [(_ & _ & _ & Hsame)|(best & agent & ticket & _ & _ & Hget & _ & Hset)].
  - rewrite Hsame in Hget1. eauto.
  - rewrite Hset in Hget1. destruct (decide (best = k)) as [->|Hne].
    + rewrite dict_get_set_eq in Hget1. injection Hget1 as <-.
      exists agent. split; [done|]. rewrite Heq.
      unfold load_before, take_ticket. simpl. rewrite length_app. simpl. lia.
    + rewrite dict_get_set_ne in Hget1 by done. eauto.
Qed.

Section RunFacts.
Variable clock : nat -> Q.

(** A run from a freshly loaded dataset: the queue built by the first phase,
    and the state after any number of rounds of the second. *)
Lemma run_spec cfg data_agents data_tickets n :
  max_load_per_agent cfg <> 0%Z \/ data_agents = [] ->
  let loaded := load_data data_agents data_tickets (init cfg) in
  exists heap self0 popped rest self_n,
    enqueue clock (tickets loaded) [] loaded = Ok (heap, self0) /\
    same_but_clock loaded self0 /\
    map tp_ticket_id heap ≡ₚ keys (tickets loaded) /\
    rounds clock n heap self0 = Ok (rest, self_n) /\
    rounds_effect popped self0 self_n /\
    popped ++ rest ≡ₚ heap /\
    length popped = Nat.min n (length heap) /\
    popped = pop_order n heap /\
    heap_ordered tp_lt heap.
Proof.
  intros Hcan loaded.
  destruct (load_data_tickets_keyed data_agents data_tickets (init cfg))
    as (Hkeyed & Hnd & Hids & Hmap). fold loaded in Hkeyed, Hnd, Hids, Hmap.
  destruct (enqueue_spec clock (tickets loaded) [] loaded)
    as (heap & self0 & Henq & Hsame & Hperm & Hordered).
  specialize (Hordered (heap_ordered_nil tp_lt)).
  change (map tp_ticket_id [] ++ ?l) with l in Hperm. rewrite Hmap in Hperm.
  destruct Hsame as (Hag & Htk & Has & Hcfg & Hcache & Hhist).
  destruct (rounds_spec clock n heap self0)
    as (popped & rest & self_n & Hrun & Heff & Hperm' & Hlen & Hpopped).
  { unfold tickets_keyed. by rewrite Htk. }
  { unfold can_score. rewrite Hcfg, Hag.
    by apply load_data_can_score. }
  { rewrite Htk. apply Forall_forall. intros tp Htp.
    rewrite <- Hperm. apply list_elem_of_fmap. by exists tp. }
  exists heap, self0, popped, rest, self_n.
  repeat split; try done.
Qed.

(** A whole run: every record of the queue is popped. *)
Lemma assign_tickets_spec cfg data_agents data_tickets :
  max_load_per_agent cfg <> 0%Z \/ data_agents = [] ->
  let loaded := load_data data_agents data_tickets (init cfg) in
  exists heap self0 popped self',
    enqueue clock (tickets loaded) [] loaded = Ok (heap, self0) /\
    same_but_clock loaded self0 /\
    rounds clock (length heap) heap self0 = Ok ([], self') /\
    map tp_ticket_id popped ≡ₚ keys (tickets loaded) /\
    rounds_effect popped self0 self' /\
    assign_tickets clock loaded = Ok (tt, self') /\
    StronglySorted
      (fun a b => (priority_score b <= priority_score a)%Q) popped.
Proof.
  intros Hcan loaded.
  destruct (run_spec cfg data_agents data_tickets
              (length (tickets loaded)) Hcan)
    as (heap & self0 & popped & rest & self' & Henq & Hsame & Hperm & Hrun
        & Heff & Hperm' & Hlen & Hpopped & Hordered).
  fold loaded in Henq, Hsame, Hperm.
  assert (Hheap : length heap = length (tickets loaded)).
  { apply Permutation_length in Hperm. unfold keys in Hperm.
    by rewrite !length_map in Hperm. }
  assert (Hrest : rest = []).
  { apply Permutation_length in Hperm'. rewrite length_app in Hperm'.
    rewrite Hheap in Hlen. apply nil_length_inv. lia. }
  subst rest. rewrite app_nil_r in Hperm'.
  exists heap, self0, popped, self'.
  split; [done|]. split; [done|]. split; [by rewrite Hheap|].
  split; [by rewrite <- Hperm, Hperm'|]. split; [done|].
  split.
  { unfold assign_tickets, bind, get. rewrite Henq, drain_as_rounds.
    by rewrite Hheap, Hrun. }
  rewrite Hpopped. by apply pop_order_sorted.
Qed.

End RunFacts.

(** C1. After [assign_tickets] on a freshly loaded dataset the log holds
    exactly one record per loaded ticket: the ticket identifiers of the
    records are a permutation of the identifiers of the loaded tickets, which
    are distinct and are those of the dataset; each record either names an
    agent of the dataset or is the explicit unassigned record. *)
Theorem C1_one_assignment_record_per_ticket :
  forall (clock : nat -> Q) (cfg : Config)
         (data_agents : list Agent) (data_tickets : list Ticket),
    max_load_per_agent cfg <> 0%Z \/ data_agents = [] ->
    let loaded := load_data data_agents data_tickets (init cfg) in
    exists self',
      assign_tickets clock loaded = Ok (tt, self') /\
      map a_ticket_id (assignments self') ≡ₚ keys (tickets loaded) /\
      NoDup (map a_ticket_id (assignments self')) /\
      (forall id, id ∈ map a_ticket_id (assignments self') <->
                  exists ticket, ticket ∈ data_tickets /\ ticket_id ticket = id) /\
      Forall (fun a =>
                (assigned_agent_id a = None /\
                 assigned_agent_name a = "UNASSIGNED" /\
                 rationale a = unassigned_rationale) \/
                (exists best, assigned_agent_id a = Some best /\
                              best ∈ keys (agents loaded)))
             (assignments self').
Proof.
  intros clock cfg data_agents data_tickets Hcan loaded.
  destruct (load_data_tickets_keyed data_agents data_tickets (init cfg))
    as (_ & Hnd & Hids & _). fold loaded in Hnd, Hids.
  destruct (assign_tickets_spec clock cfg data_agents data_tickets Hcan)
    as (heap & self0 & popped & self' & _ & Hsame & _ & Hperm & Heff & Hrun & _).
  fold loaded in Hsame, Hperm, Hrun.
  destruct (rounds_effect_log _ _ _ Heff)
    as (_ & _ & _ & log & Hlog & Hlogids & _ & Hkinds).
  destruct Hsame as (Hag & _ & Has & _).
  assert (Hall : assignments self' = log) by (by rewrite Hlog, Has).
  assert (Hpermlog : map a_ticket_id (assignments self') ≡ₚ keys (tickets loaded))
    by (by rewrite Hall, Hlogids).
  exists self'. split; [done|].
  split; [done|]. split; [by rewrite Hpermlog|]. split.
  { intros id. rewrite Hpermlog. apply Hids. }
  rewrite Hall. rewrite Hag in Hkinds. exact Hkinds.
Qed.

Lemma loads_since_loading data_agents data_tickets cfg popped self0 self' :
  agents self0 = agents (load_data data_agents data_tickets (init cfg)) ->
  rounds_effect popped self0 self' ->
  forall k agent,
    dict_get k (agents self') = Some agent ->
    exists loaded_agent,
      dict_get k (agents (load_data data_agents data_tickets (init cfg)))
        = Some loaded_agent /\
      current_load agent =
        (current_load loaded_agent + Z.of_nat (length (assigned_tickets agent)))%Z.
Proof.
  intros Hag Heff k agent Hget.
  destruct (rounds_effect_loads _ _ _ Heff k agent Hget) as (agent0 & Hget0 & Heq).
  rewrite Hag in Hget0. exists agent0. split; [done|].
  destruct (load_data_agents _ _ _ _ _ Hget0) as (row & _ & _ & ->).
  unfold load_before in Heq. simpl in Heq. simpl. lia.
Qed.

(** C5, as the code has it. [load_data] keeps the [current_load] the dataset
    gives an agent and empties its list of assigned tickets; after any number
    of rounds of the assignment loop, and at the end of the run, the
    [current_load] of every agent is its loaded value plus the number of
    ticket identifiers in its [assigned_tickets]. *)
Theorem C5_current_load_is_loaded_value_plus_assigned :
  forall (clock : nat -> Q) (cfg : Config)
         (data_agents : list Agent) (data_tickets : list Ticket) (n : nat),
    max_load_per_agent cfg <> 0%Z \/ data_agents = [] ->
    let loaded := load_data data_agents data_tickets (init cfg) in
    let tracks (self : System) :=
      forall k agent,
        dict_get k (agents self) = Some agent ->
        exists loaded_agent,
          dict_get k (agents loaded) = Some loaded_agent /\
          current_load agent =
            (current_load loaded_agent
             + Z.of_nat (length (assigned_tickets agent)))%Z in
    (forall k agent,
       dict_get k (agents loaded) = Some agent ->
       assigned_tickets agent = [] /\
       exists row, row ∈ data_agents /\ agent_id row = k /\
                   current_load agent = current_load row) /\
    (exists heap self0 rest self_n,
       enqueue clock (tickets loaded) [] loaded = Ok (heap, self0) /\
       rounds clock n heap self0 = Ok (rest, self_n) /\
       tracks self0 /\ tracks self_n) /\
    (exists self', assign_tickets clock loaded = Ok (tt, self') /\ tracks self').
Proof.
  intros clock cfg data_agents data_tickets n Hcan loaded tracks.
  split; [|split].
  - intros k agent Hget.
    destruct (load_data_agents _ _ _ _ _ Hget) as (row & Hrow & Hin & ->).
    split; [done|]. exists row. split; [done|]. split; [|done].
    destruct (dict_of_spec agent_id data_agents) as (_ & _ & Hkey).
    by destruct (Hkey k row Hrow).
  - destruct (run_spec clock cfg data_agents data_tickets n Hcan)
      as (heap & self0 & popped & rest & self_n & Henq & Hsame & _ & Hrun
          & Heff & _).
    destruct Hsame as (Hag & _).
    exists heap, self0, rest, self_n. split; [done|]. split; [done|]. split.
    + intros k agent Hget.
      eapply (loads_since_loading _ _ _ [] self0 self0 Hag); [constructor | done].
    + intros k agent Hget. by eapply loads_since_loading.
  - destruct (assign_tickets_spec clock cfg data_agents data_tickets Hcan)
      as (heap & self0 & popped & self' & _ & Hsame & _ & _ & Heff & Hrun & _).
    destruct Hsame as (Hag & _).
    exists self'. split; [done|].
    intros k agent Hget. by eapply loads_since_loading.
Qed.

(** ** Analytics *)

Lemma workload_table_total max_load entries :
  forall table,
    max_load <> 0%Z \/ entries = [] ->
    exists table', workload_table max_load entries table = Ok table'.
Proof.
  induction entries as [|agent entries IH]; intros table Hcan; [by eexists|].
  destruct Hcan as [Hmax|?]; [|done].
  cbn [workload_table]. rewrite div_nonzero by by apply inject_Z_nonzero.
  cbn [rbind]. apply IH. by left.
Qed.

Lemma demand_table_total entries :
  forall table self,
    exists table' self',
      demand_table entries table self = Ok (table', self').
Proof.
  induction entries as [|ticket entries IH]; intros table self; [by eexists _, _|].
  destruct (extract_total ticket self) as (rs & self1 & Hrun & _).
  cbn [demand_table]. unfold bind at 1. rewrite Hrun. apply IH.
Qed.

(** The analytics pass returns whenever scoring could, and its summary
    counts the records of the log. *)
Lemma generate_analytics_summary self :
  can_score self ->
  exists analytics self',
    generate_analytics self = Ok (analytics, self') /\
    summary analytics = summary_of self.
Proof.
  intros Hcan.
  destruct (workload_table_total (max_load_per_agent (config self))
              (values (agents self)) []) as (workload & Hwork).
  { destruct Hcan as [?| ->]; [by left | by right]. }
  destruct (demand_table_total (values (tickets self)) [] self)
    as (demand & self' & Hdemand).
  unfold generate_analytics, bind, get, lift, ret. rewrite Hwork, Hdemand.
  by eexists _, _.
Qed.

(** With no agent in the dataset every ticket gets the explicit unassigned
    record, and the analytics count them all as unassigned. *)
Lemma no_agents_all_unassigned clock cfg data_tickets :
  let loaded := load_data [] data_tickets (init cfg) in
  exists self' analytics self'',
    assign_tickets clock loaded = Ok (tt, self') /\
    length (assignments self') = length (tickets loaded) /\
    Forall (fun a => assigned_agent_id a = None /\
                     assigned_agent_name a = "UNASSIGNED" /\
                     rationale a = unassigned_rationale) (assignments self') /\
    generate_analytics self' = Ok (analytics, self'') /\
    unassigned_tickets (summary analytics) = length (tickets loaded) /\
    n_assigned_tickets (summary analytics) = 0%nat.
Proof.
  intros loaded.
  destruct (assign_tickets_spec clock cfg [] data_tickets (or_intror eq_refl))
    as (heap & self0 & popped & self' & _ & Hsame & _ & Hperm & Heff & Hrun & _).
  fold loaded in Hsame, Hperm, Hrun.
  destruct (rounds_effect_log _ _ _ Heff)
    as (_ & Hcfg & Hkeys & log & Hlog & Hlogids & _ & Hkinds).
  destruct Hsame as (Hag & _ & Has & _).
  assert (Hall : assignments self' = log) by (by rewrite Hlog, Has).
  assert (Hnone : Forall (fun a => assigned_agent_id a = None /\
                     assigned_agent_name a = "UNASSIGNED" /\
                     rationale a = unassigned_rationale) log).
  { eapply Forall_impl; [exact Hkinds|]. intros a [?|(best & _ & Hin)]; [done|].
    rewrite Hag in Hin. by apply elem_of_nil in Hin. }
  assert (Hlen : length log = length (tickets loaded)).
  { apply Permutation_length in Hperm. rewrite <- Hlogids in Hperm.
    unfold keys in Hperm. by rewrite !length_map in Hperm. }
  destruct (generate_analytics_summary self') as (analytics & self'' & Hgen & Hsum).
  { right. rewrite Hag in Hkeys. unfold keys in Hkeys.
    by apply fmap_nil_inv in Hkeys. }
  exists self', analytics, self''. rewrite Hall.
  split; [done|]. split; [done|]. split; [done|]. split; [done|].
  rewrite Hsum. unfold summary_of. cbn [unassigned_tickets n_assigned_tickets].
  rewrite Hall, <- Hlen. clear -Hnone.
  induction Hnone as [|a log (Ha & _) _ [IH1 IH2]]; [done|].
  simpl. rewrite Ha. simpl. by rewrite IH1, IH2.
Qed.

(** *** The order of the drain phase *)

(** Tickets are processed by non-increasing priority score: the records of
    the log follow the records popped from the queue, whose scores never
    increase. *)
Lemma tickets_processed_by_descending_priority clock cfg data_agents data_tickets :
  max_load_per_agent cfg <> 0%Z \/ data_agents = [] ->
  exists self' popped,
    assign_tickets clock (load_data data_agents data_tickets (init cfg))
      = Ok (tt, self') /\
    map a_ticket_id (assignments self') = map tp_ticket_id popped /\
    map a_priority_score (assignments self')
      = map (fun tp => round2 (priority_score tp)) popped /\
    StronglySorted (fun a b => (priority_score b <= priority_score a)%Q) popped.
Proof.
  intros Hcan.
  destruct (assign_tickets_spec clock cfg data_agents data_tickets Hcan)
    as (heap & self0 & popped & self' & _ & Hsame & _ & _ & Heff & Hrun & Hsorted).
  destruct (rounds_effect_log _ _ _ Heff)
    as (_ & _ & _ & log & Hlog & Hlogids & Hscores & _).
  destruct Hsame as (_ & _ & Has & _).
  assert (Hall : assignments self' = log) by (by rewrite Hlog, Has).
  exists self', popped. rewrite Hall. done.
Qed.

(** ** The scan over the agents *)

(** The scan scores every agent against the same cached skill mapping. *)
Lemma scan_agents_pure ticket tp entries :
  forall scan self rs,
    max_load_per_agent (config self) <> 0%Z ->
    dict_get (ticket_id ticket) (skill_requirements_cache self) = Some rs ->
    scan_agents entries ticket tp scan self =
      Ok (fold_left
            (scan_pure (score_with (config self)
                          (agent_performance_history self) rs tp))
            entries scan, self).
Proof.
  induction entries as [|[key agent] entries IH]; intros scan self rs Hmax Hrs;
    [done|].
  destruct (calculate_agent_score_spec agent ticket tp self Hmax)
    as (rs' & self' & base & Hrun & _ & _ & Hsum & Hscore).
  rewrite (extract_hit _ _ _ Hrs) in Hrun. injection Hrun as <- <-.
  cbn [scan_agents fold_left]. unfold bind at 1, scan_step, bind.
  rewrite Hscore. unfold scan_pure at 2, score_with at 2 3 4 5.
  cbn [fst snd]. rewrite Hsum.
  destruct (Qltb (best_score scan) (apply_penalties (config self) agent base));
    unfold ret; by apply IH.
Qed.

(** What the fold of the scan computes: either no score exceeds the initial
    best and nothing is selected anew, or the selected agent is the first
    one whose score is the greatest. *)
Lemma scan_pure_selects score entries :
  forall scan,
    let final := fold_left (scan_pure score) entries scan in
    (best_agent_id final = best_agent_id scan /\
     best_score final = best_score scan /\
     Forall (fun entry => (score (snd entry) <= best_score scan)%Q) entries) \/
    (exists before key agent after,
       entries = before ++ (key, agent) :: after /\
       best_agent_id final = Some key /\
       best_score final = score agent /\
       (best_score scan < score agent)%Q /\
       Forall (fun entry => (score (snd entry) < score agent)%Q) before /\
       Forall (fun entry => (score (snd entry) <= score agent)%Q) after).
Proof.
  induction entries as [|[key agent] entries IH]; intros scan final.
  - left. by repeat split.
  - subst final. cbn [fold_left].
    set (scan1 := scan_pure score scan (key, agent)).
    assert (Hstep :
      (Qltb (best_score scan) (score agent) = true /\
       best_agent_id scan1 = Some key /\ best_score scan1 = score agent) \/
      (Qltb (best_score scan) (score agent) = false /\
       best_agent_id scan1 = best_agent_id scan /\
       best_score scan1 = best_score scan)).
    { unfold scan1, scan_pure. cbn [fst snd].
      destruct (Qltb (best_score scan) (score agent)); [left | right]; done. }
    destruct (IH scan1) as [(Hid & Hbest & Hall)|
      (before & k & a & after & -> & Hid & Hbest & Hgt & Hbefore & Hafter)].
    + destruct Hstep as [(Hlt & Hid1 & Hbest1)|(Hge & Hid1 & Hbest1)].
      * right. exists [], key, agent, entries.
        apply Qltb_lt in Hlt. rewrite Hbest1 in Hall.
        split; [done|]. split; [congruence|]. split; [congruence|].
        split; [done|]. split; [constructor | done].
      * left. apply Qltb_ge in Hge. rewrite Hbest1 in Hall.
        split; [congruence|]. split; [congruence|]. by constructor.
    + right. exists ((key, agent) :: before), k, a, after.
      split; [done|]. split; [done|]. split; [done|].
      destruct Hstep as [(Hlt & _ & Hbest1)|(Hge & _ & Hbest1)].
      * apply Qltb_lt in Hlt. rewrite Hbest1 in Hgt.
        split; [by apply (Qlt_trans _ _ _ Hlt)|].
        split; [by constructor | done].
      * apply Qltb_ge in Hge. rewrite Hbest1 in Hgt.
        split; [done|]. split; [|done].
        constructor; [|done]. simpl. by eapply Qle_lt_trans.
Qed.

Lemma scan_pure_loop_var score entries :
  forall scan,
    entries <> [] ->
    exists key, loop_agent_id (fold_left (scan_pure score) entries scan) = Some key.
Proof.
  induction entries as [|entry entries IH]; intros scan Hne; [done|].
  destruct entries as [|entry' entries].
  - cbn [fold_left]. unfold scan_pure. destruct (Qltb _ _); by eexists.
  - cbn [fold_left]. apply IH. done.
Qed.

Lemma scan_agents_fold ticket tp entries scan self rs self1 :
  max_load_per_agent (config self) <> 0%Z ->
  entries <> [] ->
  extract_required_skills ticket self = Ok (rs, self1) ->
  scan_agents entries ticket tp scan self =
    Ok (fold_left
          (scan_pure (score_with (config self)
                        (agent_performance_history self) rs tp))
          entries scan, self1).
Proof.
  intros Hmax Hne Hextract. destruct entries as [|[key agent] entries]; [done|].
  destruct (calculate_agent_score_spec agent ticket tp self Hmax)
    as (rs' & self' & base & Hrun & Hcached & Hsame & Hsum & Hscore).
  rewrite Hextract in Hrun. injection Hrun as <- <-.
  destruct Hsame as (_ & _ & _ & Hcfg & Hhist & _).
  cbn [scan_agents fold_left]. unfold bind at 1, scan_step, bind.
  rewrite Hscore.
  assert (Hmax1 : max_load_per_agent (config self1) <> 0%Z) by by rewrite Hcfg.
  unfold scan_pure at 2, score_with at 2 3 4 5. cbn [fst snd]. rewrite Hsum.
  destruct (Qltb (best_score scan) (apply_penalties (config self) agent base));
    unfold ret; rewrite (scan_agents_pure ticket tp entries _ self1 rs Hmax1 Hcached);
    by rewrite Hcfg, Hhist.
Qed.

Section Selection.
Variable clock : nat -> Q.

(** One round of the loop, by the scores of the agents: the ticket goes to
    the first agent whose score is the greatest, provided that score is above
    -1 and the agent's identifier is not empty; otherwise the ticket gets
    the unassigned record. *)
Lemma assign_one_selection tp self ticket rs self1 :
  NoDup (keys (agents self)) ->
  max_load_per_agent (config self) <> 0%Z ->
  dict_get (tp_ticket_id tp) (tickets self) = Some ticket ->
  extract_required_skills ticket self = Ok (rs, self1) ->
  let score :=
    score_with (config self) (agent_performance_history self) rs tp in
  exists self' a,
    assign_one clock tp self = Ok (tt, self') /\
    assignments self' = assignments self ++ [a] /\
    ((Forall (fun entry => (score (snd entry) <= -1)%Q) (agents self) /\
      assigned_agent_id a = None /\ agents self' = agents self) \/
     (exists before key agent after,
        agents self = before ++ (key, agent) :: after /\
        (-1 < score agent)%Q /\
        Forall (fun entry => (score (snd entry) < score agent)%Q) before /\
        Forall (fun entry => (score (snd entry) <= score agent)%Q) after /\
        ((key <> "" /\ assigned_agent_id a = Some key /\
          agents self' =
            dict_set key (take_ticket ticket tp agent) (agents self)) \/
         (key = "" /\ assigned_agent_id a = None /\
          agents self' = agents self)))).
Proof.
  intros Hnd Hmax Hticket Hextract score.
  unfold assign_one, bind at 1 2 3, get, lift, getitem. rewrite Hticket.
  destruct (agents self) as [|entry entries] eqn:Hagents.
  { cbn [scan_agents]. unfold ret. cbn [best_agent_id scan_start].
    destruct (record_unassigned_spec clock ticket tp self)
      as (self' & a & Hrun & Hlog & _ & Hnone & _ & _ & _ & _ & _ & Hag & _).
    exists self', a. split; [done|]. split; [done|].
    left. split; [constructor|]. split; [done|]. congruence. }
  rewrite <- Hagents in *.
  assert (Hne : agents self <> []) by (by rewrite Hagents).
  rewrite (scan_agents_fold ticket tp (agents self) scan_start self rs self1
             Hmax Hne Hextract).
  fold score.
  destruct (extract_total ticket self) as (rs' & self1' & Hrun' & _ & Hsame).
  rewrite Hextract in Hrun'. injection Hrun' as <- <-.
  destruct Hsame as (Hag1 & _ & Has1 & _).
  destruct (scan_pure_loop_var score (agents self) scan_start Hne) as (var & Hvar).
  assert (Hfallback : forall (Hid : True),
            exists self' a,
              record_unassigned clock ticket tp self1 = Ok (tt, self') /\
              assignments self' = assignments self ++ [a] /\
              assigned_agent_id a = None /\ agents self' = agents self).
  { intros _. destruct (record_unassigned_spec clock ticket tp self1)
      as (self' & a & Hrun & Hlog & _ & Hnone & _ & _ & _ & _ & _ & Hag & _).
    exists self', a. repeat split; try done; congruence. }
  destruct (scan_pure_selects score (agents self) scan_start)
    as [(Hid & _ & Hall)|
        (before & key & agent & after & Hsplit & Hid & Hbest & Hgt & Hbefore & Hafter)].
  - rewrite Hid. cbn [best_agent_id scan_start].
    destruct (Hfallback I) as (self' & a & Hrun & Hlog & Hnone & Hag).
    exists self', a. split; [done|]. split; [done|]. left. done.
  - rewrite Hid. cbn [truthy].
    destruct (String.eqb key "") eqn:Hempty; cbn [negb].
    + apply String.eqb_eq in Hempty.
      destruct (Hfallback I) as (self' & a & Hrun & Hlog & Hnone & Hag).
      exists self', a. split; [done|]. split; [done|].
      right. exists before, key, agent, after. repeat split; try done.
      right. done.
    + apply String.eqb_neq in Hempty.
      assert (Hget : dict_get key (agents self1) = Some agent).
      { rewrite Hag1. apply dict_get_in_NoDup; [done|].
        rewrite Hsplit. apply elem_of_app. right. apply list_elem_of_here. }
      destruct (commit_assignment_spec clock ticket tp
                  (fold_left (scan_pure score) (agents self) scan_start)
                  key agent self1 Hget (ex_intro _ var Hvar))
        as (self' & a & Hrun & Hlog & _ & Hsome & _ & _ & _ & Hag' & _).
      exists self', a. split; [done|]. split; [congruence|].
      right. exists before, key, agent, after. repeat split; try done.
      left. repeat split; try done. congruence.
Qed.

End Selection.

(** ** The claims on the sample datasets *)

(** C1 on the two-ticket dataset of the specification's scenario. *)
Lemma C1_witness :
  (max_load_per_agent default_config <> 0%Z \/ [agent_ann] = []) /\
  exists self',
    assign_tickets sample_clock
      (load_data [agent_ann] [ticket_network; ticket_printer]
         (init default_config)) = Ok (tt, self') /\
    map a_ticket_id (assignments self') ≡ₚ ["TKT-A"; "TKT-B"].
Proof.
  assert (H : max_load_per_agent default_config <> 0%Z \/ [agent_ann] = [])
    by (left; simpl; lia).
  split; [exact H|].
  destruct (C1_one_assignment_record_per_ticket sample_clock default_config
              [agent_ann] [ticket_network; ticket_printer] H)
    as (self' & Hrun & Hperm & _).
  exists self'. split; [exact Hrun | exact Hperm].
Defined.

(** C5 as stated fails on an agent that enters the run with open tickets:
    it is loaded with its load of 3 and an empty list. *)
Lemma C5_counterexample :
  exists agent,
    dict_get "agent_005"
      (agents (load_data [agent_eve] [ticket_printer] (init default_config)))
      = Some agent /\
    current_load agent = 3%Z /\
    length (assigned_tickets agent) = 0%nat.
Proof. eexists. split; [reflexivity|]. split; reflexivity. Qed.

(** C5, amended, on that agent: after the run its load is 3 + 1. *)
Lemma C5_witness :
  (max_load_per_agent default_config <> 0%Z \/ [agent_eve] = []) /\
  exists self',
    assign_tickets sample_clock
      (load_data [agent_eve] [ticket_printer] (init default_config))
      = Ok (tt, self') /\
    forall k agent,
      dict_get k (agents self') = Some agent ->
      exists loaded_agent,
        dict_get k (agents (load_data [agent_eve] [ticket_printer]
                              (init default_config))) = Some loaded_agent /\
        current_load agent =
          (current_load loaded_agent
           + Z.of_nat (length (assigned_tickets agent)))%Z.
Proof.
  assert (H : max_load_per_agent default_config <> 0%Z \/ [agent_eve] = [])
    by (left; simpl; lia).
  split; [exact H|].
  destruct (C5_current_load_is_loaded_value_plus_assigned sample_clock
              default_config [agent_eve] [ticket_printer] 1 H)
    as (_ & _ & self' & Hrun & Htracks).
  exists self'. split; [exact Hrun | exact Htracks].
Defined.

(** C6 on an agent that is busy and at the load limit. *)
Lemma C6_witness :
  max_load_per_agent (config (init default_config)) <> 0%Z /\
  exists rs self' base score,
    weighted_sum default_config [] agent_bob rs
      (calculate_ticket_priority default_config (sample_clock 0) ticket_network)
      = Ok base /\
    calculate_agent_score agent_bob ticket_network
      (calculate_ticket_priority default_config (sample_clock 0) ticket_network)
      (init default_config) = Ok (score, self') /\
    (score == 0.001 * base)%Q.
Proof.
  assert (H : max_load_per_agent (config (init default_config)) <> 0%Z)
    by (simpl; lia).
  split; [exact H|].
  destruct (C6_penalties_multiply_weighted_sum agent_bob ticket_network
              (calculate_ticket_priority default_config (sample_clock 0)
                 ticket_network)
              (init default_config) H)
    as (rs & self' & base & score & _ & Hsum & Hscore & _ & Hboth).
  exists rs, self', base, score. split; [exact Hsum|]. split; [exact Hscore|].
  apply Hboth; [discriminate | simpl; lia].
Defined.

(** C7 on a ticket whose text matches no trigger phrase. *)
Lemma C7_witness :
  max_load_per_agent (config (init default_config)) <> 0%Z /\
  exists self',
    extract_required_skills ticket_plain (init default_config) = Ok ([], self') /\
    skill_match_score_of agent_ann [] = Ok 5%Q /\
    exists score,
      calculate_agent_score agent_ann ticket_plain
        (calculate_ticket_priority default_config (sample_clock 0) ticket_plain)
        (init default_config) = Ok (score, self').
Proof.
  assert (H : max_load_per_agent (config (init default_config)) <> 0%Z)
    by (simpl; lia).
  split; [exact H|].
  eexists. split; [vm_compute; reflexivity|].
  destruct (C7_no_required_skills_neutral_score agent_ann ticket_plain
              (calculate_ticket_priority default_config (sample_clock 0)
                 ticket_plain)
              (init default_config) _ H eq_refl)
    as (Hfive & _ & p & _ & Hscore).
  split; [exact Hfive|]. eexists. exact Hscore.
Defined.


(** C10 on two records that share an identifier and differ in their text. *)
Lemma C10_witness :
  ticket_id ticket_printer = ticket_id ticket_printer_reworded /\
  exists rs self',
    extract_required_skills ticket_printer (init default_config)
      = Ok (rs, self') /\
    extract_required_skills ticket_printer_reworded self' = Ok (rs, self').
Proof.
  split; [reflexivity|].
  exact (C10_cache_keyed_by_ticket_id ticket_printer ticket_printer_reworded
           (init default_config) eq_refl).
Defined.

(** On a fresh cache the reworded record has another mapping. *)
Example reworded_ticket_fresh_mapping :
  exists rs rs' self1 self2,
    extract_required_skills ticket_printer (init default_config)
      = Ok (rs, self1) /\
    extract_required_skills ticket_printer_reworded (init default_config)
      = Ok (rs', self2) /\
    keys rs = ["Printer_Troubleshooting"] /\
    keys rs' = ["Networking"; "VPN_Troubleshooting"; "Linux_Administration"].
Proof.
  eexists _, _, _, _.
  split; [vm_compute; reflexivity|]. split; [vm_compute; reflexivity|].
  split; vm_compute; reflexivity.
Qed.

(** After a call on the full record, a call on a record that has the
    identifier and no text at all returns the cached mapping; on an empty
    cache the same record raises [KeyError]. *)
Example cached_lookup_reads_no_text :
  exists rs self',
    Json.extract_required_skills json_ticket_printer (init default_config)
      = Ok (rs, self') /\
    Json.extract_required_skills json_ticket_id_only self' = Ok (rs, self') /\
    Json.extract_required_skills json_ticket_id_only (init default_config)
      = Raise (KeyError "description").
Proof.
  eexists _, _. split; [vm_compute; reflexivity|].
  split; vm_compute; reflexivity.
Qed.

(** The scenario of section 8 of the specification: one agent, a ticket
    about a network outage and one about a printer.  The outage is CRITICAL
    and served first; both go to the agent, whose load ends at 2. *)
Example scenario_one_agent_two_tickets :
  exists self',
    assign_tickets sample_clock
      (load_data [agent_ann] [ticket_printer; ticket_network]
         (init default_config)) = Ok (tt, self') /\
    map (fun a => (a_ticket_id a, assigned_agent_id a, priority a))
        (assignments self')
      = [("TKT-A", Some "agent_001", CRITICAL); ("TKT-B", Some "agent_001", LOW)] /\
    map (fun agent => (current_load agent, assigned_tickets agent))
        (values (agents self')) = [(2%Z, ["TKT-A"; "TKT-B"])].
Proof.
  eexists. split; [vm_compute; reflexivity|].
  split; vm_compute; reflexivity.
Qed.

(** ** Where the code departs from the claims *)

(** C2. An agent exists, far over the load limit; its score, -1.965, is not
    above the initial [best_score] of -1, so no agent is chosen and the
    ticket gets the unassigned record, the agent's load staying as it was. *)
Theorem C2_agent_exists_ticket_unassigned :
  exists self' a,
    assign_tickets sample_clock
      (load_data [agent_cy] [ticket_printer] (init default_config))
      = Ok (tt, self') /\
    keys (agents self') = ["agent_003"] /\
    assignments self' = [a] /\
    a_ticket_id a = "TKT-B" /\
    assigned_agent_id a = None /\
    assigned_agent_name a = "UNASSIGNED" /\
    rationale a = unassigned_rationale /\
    map (fun agent => (current_load agent, assigned_tickets agent))
        (values (agents self')) = [(1000%Z, [])].
Proof.
  eexists _, _. split; [vm_compute; reflexivity|].
  repeat split.
Qed.

(** The same branch is taken for an agent whose identifier is the empty
    string, which [if best_agent_id:] reads as false. *)
Example empty_agent_id_unassigned :
  exists self',
    assign_tickets sample_clock
      (load_data [mkAgent "" "Ann" [("Networking", 9%Z)] 0 "Available" 10 [] 0]
         [ticket_network] (init default_config))
      = Ok (tt, self') /\
    map assigned_agent_id (assignments self') = [None].
Proof. eexists. split; [vm_compute; reflexivity | reflexivity]. Qed.

(** C4. Two agents over the load limit: both are scored, the first has the
    strictly greater score, and neither is selected, because no score is
    above the initial [best_score] of -1. *)
Theorem C4_greatest_score_not_selected :
  exists scan self1 self',
    scan_agents
      (agents (load_data [agent_cy; agent_di] [ticket_printer]
                 (init default_config)))
      ticket_printer
      (calculate_ticket_priority default_config (sample_clock 0) ticket_printer)
      scan_start
      (load_data [agent_cy; agent_di] [ticket_printer] (init default_config))
      = Ok (scan, self1) /\
    Forall2 same_entry (agent_scores scan)
      [("agent_003", (-1.965)%Q); ("agent_004", (-3.965)%Q)] /\
    best_agent_id scan = None /\
    assign_tickets sample_clock
      (load_data [agent_cy; agent_di] [ticket_printer] (init default_config))
      = Ok (tt, self') /\
    map assigned_agent_id (assignments self') = [None].
Proof.
  eexists _, _, _. split; [vm_compute; reflexivity|].
  split; [repeat constructor|].
  split; [reflexivity|].
  split; [vm_compute; reflexivity | reflexivity].
Qed.

(** C9. The validator accepts a dataset whose ticket has no title, and the
    priority computation raises [KeyError] on that ticket. *)
Theorem C9_validated_ticket_raises_KeyError :
  Json.validate_data json_dataset = (true, []) /\
  Json.calculate_ticket_priority default_config (sample_clock 0)
    json_ticket_without_title = Raise (KeyError "title").
Proof. split; reflexivity. Qed.
